(** * File-stream call mixin of pytgvoip_pyrogram

    A shallow embedding of [tgvoip_pyrogram/file_stream_call.py]
    (class [VoIPFileStreamCallMixin]) and the properties of its frame pump.

    Python objects live in a heap of file objects addressed by position; the
    two deques hold references into that heap, so that closing a file that
    is still queued is visible through the queue.  Every method is a
    computation in a state-and-exception monad: an exception carries the
    state reached when it was raised, since Python does not roll back the
    assignments made before a [raise]. *)

From Stdlib Require Import ZArith QArith Lia Bool Ascii String.
From Stdlib.Strings Require Import Byte.
From stdpp Require Import base list.

Open Scope Z_scope.

(** ** Python values used by the mixin *)

(** A file object: [f_name], [f_mode] ([None] when the object has no [mode]
    attribute), the bytes readable through it, the stream position, the
    closed flag and the [size] attribute the mixin caches on the object
    ([None] while [hasattr(file, 'size')] is false). *)
Record pyfile := mkfile {
  f_name : string;
  f_mode : option string;
  f_data : list byte;
  f_pos : nat;
  f_closed : bool;
  f_size : option Z
}.

Inductive exn :=
| IndexError | TypeError | ValueError | ZeroDivisionError
| FileNotFoundError | AttributeError | ReferenceError
| OSError | UnsupportedOperation | OverflowError.

(** What a handler would be scheduled with: [file_changed] passes the
    current file and index, [file_progress] the offset, the total and the
    percentage. *)
Inductive event :=
| FileChanged (file : option nat) (index : Z)
| FileProgress (bytes_offset total_bytes : Z) (percentage : Q).

(** Calls made on file objects, in program order.  A seek or a read is
    recorded when the object is not closed, whether or not it then
    succeeds; a closed object refuses it before anything is recorded. *)
Inductive io_op :=
| IoSeek (fid : nat) (off : Z)
| IoRead (fid : nat) (n : nat)
| IoClose (fid : nat).

(** An argument of [play] / [set_output_file]: a path or an object. *)
Inductive file_arg := Path (p : string) | Handle (h : nat).

(** The argument of [play_on_hold]: a list, tuple or set with its elements in
    iteration order, or a value of any other type, given by the text that
    [type(files)] formats to. *)
Inductive hold_arg := Seq (fs : list file_arg) | NotSeq (ty : string).

(** ** The instance state ([__init__]) together with its environment *)
Record state := mkstate {
  heap : list pyfile;
  disk : list (string * list byte);
  input_files : list nat;
  hold_files : list nat;
  current_file_index : Z;
  last_file_name : option string;
  current_file : option nat;
  current_bytes_offset : Z;
  force_seek : bool;
  output_file : option nat;
  last_progress_percentage : Z; (* in tenths of a percent *)
  events : list event;
  stdout : list string;
  io_log : list io_op;
  max_offset : Z (* the largest offset the file system takes in a seek *)
}.

Definition init (h : list pyfile) (d : list (string * list byte)) : state :=
  mkstate h d [] [] 0 None None 0 false None 0 [] [] [] 0.

(** ** State and exception monad *)
Inductive result (A : Type) :=
| Ok (a : A) (s : state)
| Raise (e : exn) (s : state).
Arguments Ok {A} a s.
Arguments Raise {A} e s.

Definition M (A : Type) := state -> result A.

Definition ret {A} (a : A) : M A := fun s => Ok a s.
Definition bind {A B} (k : A -> M B) (m : M A) : M B :=
  fun s => match m s with
           | Ok a s' => k a s'
           | Raise e s' => Raise e s'
           end.
Definition raise {A} (e : exn) : M A := fun s => Raise e s.
Definition get : M state := fun s => Ok s s.
Definition modify (f : state -> state) : M unit := fun s => Ok tt (f s).

#[global] Instance M_ret : MRet M := @ret.
#[global] Instance M_bind : MBind M := @bind.

Definition state_of {A} (r : result A) : state :=
  match r with Ok _ s => s | Raise _ s => s end.

(** ** Field assignments *)
Definition set_heap v s := mkstate v (disk s) (input_files s) (hold_files s)
  (current_file_index s) (last_file_name s) (current_file s)
  (current_bytes_offset s) (force_seek s) (output_file s)
  (last_progress_percentage s) (events s) (stdout s) (io_log s) (max_offset s).
Definition set_disk v s := mkstate (heap s) v (input_files s) (hold_files s)
  (current_file_index s) (last_file_name s) (current_file s)
  (current_bytes_offset s) (force_seek s) (output_file s)
  (last_progress_percentage s) (events s) (stdout s) (io_log s) (max_offset s).
Definition set_input_files v s := mkstate (heap s) (disk s) v (hold_files s)
  (current_file_index s) (last_file_name s) (current_file s)
  (current_bytes_offset s) (force_seek s) (output_file s)
  (last_progress_percentage s) (events s) (stdout s) (io_log s) (max_offset s).
Definition set_hold_files v s := mkstate (heap s) (disk s) (input_files s) v
  (current_file_index s) (last_file_name s) (current_file s)
  (current_bytes_offset s) (force_seek s) (output_file s)
  (last_progress_percentage s) (events s) (stdout s) (io_log s) (max_offset s).
Definition set_current_file_index v s := mkstate (heap s) (disk s)
  (input_files s) (hold_files s) v (last_file_name s) (current_file s)
  (current_bytes_offset s) (force_seek s) (output_file s)
  (last_progress_percentage s) (events s) (stdout s) (io_log s) (max_offset s).
Definition set_last_file_name v s := mkstate (heap s) (disk s)
  (input_files s) (hold_files s) (current_file_index s) v (current_file s)
  (current_bytes_offset s) (force_seek s) (output_file s)
  (last_progress_percentage s) (events s) (stdout s) (io_log s) (max_offset s).
Definition set_current_file v s := mkstate (heap s) (disk s)
  (input_files s) (hold_files s) (current_file_index s) (last_file_name s) v
  (current_bytes_offset s) (force_seek s) (output_file s)
  (last_progress_percentage s) (events s) (stdout s) (io_log s) (max_offset s).
Definition set_current_bytes_offset v s := mkstate (heap s) (disk s)
  (input_files s) (hold_files s) (current_file_index s) (last_file_name s)
  (current_file s) v (force_seek s) (output_file s)
  (last_progress_percentage s) (events s) (stdout s) (io_log s) (max_offset s).
Definition set_force_seek v s := mkstate (heap s) (disk s)
  (input_files s) (hold_files s) (current_file_index s) (last_file_name s)
  (current_file s) (current_bytes_offset s) v (output_file s)
  (last_progress_percentage s) (events s) (stdout s) (io_log s) (max_offset s).
Definition set_output v s := mkstate (heap s) (disk s)
  (input_files s) (hold_files s) (current_file_index s) (last_file_name s)
  (current_file s) (current_bytes_offset s) (force_seek s) v
  (last_progress_percentage s) (events s) (stdout s) (io_log s) (max_offset s).
Definition set_last_progress_percentage v s := mkstate (heap s) (disk s)
  (input_files s) (hold_files s) (current_file_index s) (last_file_name s)
  (current_file s) (current_bytes_offset s) (force_seek s) (output_file s)
  v (events s) (stdout s) (io_log s) (max_offset s).
Definition emit (e : event) s := mkstate (heap s) (disk s)
  (input_files s) (hold_files s) (current_file_index s) (last_file_name s)
  (current_file s) (current_bytes_offset s) (force_seek s) (output_file s)
  (last_progress_percentage s) (events s ++ [e]) (stdout s) (io_log s) (max_offset s).
Definition put_line (msg : string) s := mkstate (heap s) (disk s)
  (input_files s) (hold_files s) (current_file_index s) (last_file_name s)
  (current_file s) (current_bytes_offset s) (force_seek s) (output_file s)
  (last_progress_percentage s) (events s) (stdout s ++ [msg]) (io_log s) (max_offset s).
Definition log_io (o : io_op) s := mkstate (heap s) (disk s)
  (input_files s) (hold_files s) (current_file_index s) (last_file_name s)
  (current_file s) (current_bytes_offset s) (force_seek s) (output_file s)
  (last_progress_percentage s) (events s) (stdout s) (io_log s ++ [o]) (max_offset s).

Definition print (msg : string) : M unit := modify (put_line msg).

(** ** Python primitives *)

(** [seq[i]] on a list or deque: negative indices count from the end. *)
Definition py_index {A} (l : list A) (i : Z) : option A :=
  if 0 <=? i then l !! Z.to_nat i
  else if - Z.of_nat (length l) <=? i then l !! Z.to_nat (Z.of_nat (length l) + i)
  else None.

Definition getitem (l : list nat) (i : Z) : M nat :=
  match py_index l i with
  | Some x => ret x
  | None => raise IndexError
  end.

Definition deref (fid : nat) : M pyfile :=
  s ← get;
  match heap s !! fid with
  | Some f => ret f
  | None => raise ReferenceError
  end.

Definition store (fid : nat) (f : pyfile) : M unit :=
  modify (fun s => set_heap (<[fid := f]> (heap s)) s).

(** [c in s] for a one-character string [c]. *)
Fixpoint has_char (c : ascii) (m : string) : bool :=
  match m with
  | EmptyString => false
  | String a m' => if Ascii.eqb a c then true else has_char c m'
  end.

(** [any(m in mode for m in chars)] *)
Fixpoint any_char_in (chars : string) (mode : string) : bool :=
  match chars with
  | EmptyString => false
  | String c cs => if has_char c mode then true else any_char_in cs mode
  end.

Fixpoint lookup_disk (d : list (string * list byte)) (p : string)
  : option (list byte) :=
  match d with
  | [] => None
  | (q, c) :: d' => if String.eqb q p then Some c else lookup_disk d' p
  end.

(** The offsets a seek accepts.  An offset that does not fit the 64-bit
    [off_t] is refused by the file object with [ValueError]; a negative one,
    or one above what the file system takes, by the system call with
    [OSError].  Every file system takes the offsets of a 32-bit [off_t];
    how far it goes beyond that is [max_offset]. *)
Definition seek_limit (s : state) : Z := Z.max (2 ^ 31 - 1) (max_offset s).

(** [file.seek(off)] *)
Definition file_seek (fid : nat) (off : Z) : M unit :=
  f ← deref fid;
  if f_closed f then raise ValueError
  else
    modify (log_io (IoSeek fid off));;
    s ← get;
    if (off <? - 2 ^ 63) || (2 ^ 63 <=? off) then raise ValueError
    else if (off <? 0) || (seek_limit s <? off) then raise OSError
    else
      store fid (mkfile (f_name f) (f_mode f) (f_data f) (Z.to_nat off)
                        (f_closed f) (f_size f)).

(** The object is a binary stream that can be read: its mode has [b] and
    [r] or [+].  A binary stream opened with [w], [a] or [x] alone is a
    writer, and its [read] raises [io.UnsupportedOperation], closed or not.
    A text stream or an object without a mode never enters a queue ([play]
    and [play_on_hold] turn it away); its [read] is given the same outcome
    here. *)
Definition readable_mode (f : pyfile) : bool :=
  match f_mode f with
  | Some m => has_char "b" m && (has_char "r" m || has_char "+" m)
  | None => false
  end.

(** [file.read(n)] for [n >= 0]: at most [n] bytes from the position. *)
Definition file_read (fid : nat) (n : nat) : M (list byte) :=
  f ← deref fid;
  (if f_closed f then ret tt else modify (log_io (IoRead fid n)));;
  if negb (readable_mode f) then raise UnsupportedOperation
  else if f_closed f then raise ValueError
  else
    let frame := take n (drop (f_pos f) (f_data f)) in
    store fid (mkfile (f_name f) (f_mode f) (f_data f)
                      (f_pos f + length frame)%nat (f_closed f) (f_size f));;
    ret frame.

Definition file_tell (fid : nat) : M Z :=
  f ← deref fid;
  if f_closed f then raise ValueError else ret (Z.of_nat (f_pos f)).

(** [file.close()] never fails; closing twice is allowed. *)
Definition file_close (fid : nat) : M unit :=
  f ← deref fid;
  store fid (mkfile (f_name f) (f_mode f) (f_data f) (f_pos f) true (f_size f));;
  modify (log_io (IoClose fid)).

(** [os.path.getsize(name)] *)
Definition getsize (p : string) : M Z :=
  s ← get;
  match lookup_disk (disk s) p with
  | Some c => ret (Z.of_nat (length c))
  | None => raise FileNotFoundError
  end.

(** [open(p, 'rb')]: a fresh file object on the bytes found on disk. *)
Definition open_rb (p : string) : M nat :=
  s ← get;
  match lookup_disk (disk s) p with
  | Some c =>
      modify (fun s => set_heap (heap s ++ [mkfile p (Some "rb"%string) c 0 false None]) s);;
      ret (length (heap s))
  | None => raise FileNotFoundError
  end.

(** [open(p, 'wb')]: creates or truncates the file. *)
Definition open_wb (p : string) : M nat :=
  s ← get;
  modify (fun s => set_disk ((p, []) :: disk s) s);;
  modify (fun s => set_heap (heap s ++ [mkfile p (Some "wb"%string) [] 0 false None]) s);;
  ret (length (heap s)).

(** ** Progress percentage

    [percentage] is the float [(offset * 100) / size]: the quotient of two
    integers rounded to the nearest binary64 value, ties to the even
    mantissa, which [binary64] gives as the rational it stands for.  The
    division raises [OverflowError] when the quotient rounds beyond the
    largest float.  [round1] is [round(percentage, 1)] counted in tenths:
    the exact value of the float rounded to one decimal, ties going to the
    even neighbour. *)
Definition round_half_even (n d : Z) : Z :=
  let fl := n / d in
  let r := n mod d in
  if 2 * r <? d then fl
  else if d <? 2 * r then fl + 1
  else if Z.even fl then fl else fl + 1.

(** The binary64 value nearest to [n / d], for [0 < n] and [0 < d]. *)
Definition binary64_pos (n d : Z) : Q :=
  let k := Z.log2 n - Z.log2 d in
  let above := if 0 <=? k then d * 2 ^ k <=? n else d <=? n * 2 ^ (- k) in
  let lg := if above then k else k - 1 in
  let e := Z.max (lg - 52) (- 1074) in
  if 0 <=? e then inject_Z (round_half_even n (d * 2 ^ e) * 2 ^ e)
  else round_half_even (n * 2 ^ (- e)) d # Z.to_pos (2 ^ (- e)).

Definition binary64 (n d : Z) : Q :=
  if n =? 0 then 0
  else if Z.sgn n * Z.sgn d <? 0 then - binary64_pos (Z.abs n) (Z.abs d)
  else binary64_pos (Z.abs n) (Z.abs d).

Definition percentage_of (off size : Z) : Q := binary64 (off * 100) size.

(** [(offset * 100) / size] is too large for a float. *)
Definition percentage_overflows (off size : Z) : bool :=
  (2 ^ 1024 - 2 ^ 970) * Z.abs size <=? Z.abs (off * 100).

Definition round1 (p : Q) : Z :=
  let n := Qnum p * 10 in
  let d := Z.pos (Qden p) in
  let fl := n / d in
  let r := n mod d in
  if 2 * r <? d then fl
  else if d <? 2 * r then fl + 1
  else if Z.even fl then fl else fl + 1.

(** ** Methods of [VoIPFileStreamCallMixin] *)

Definition active_files (s : state) : list nat :=
  match hold_files s with [] => input_files s | _ => hold_files s end.

Definition bad_read_mode (f : pyfile) : bool :=
  match f_mode f with
  | None => true
  | Some m => negb (has_char "b" m) || negb (any_char_in "rxa+" m)
  end.

Definition clear_file_info : M unit :=
  modify (set_last_file_name None);;
  modify (set_current_file None);;
  modify (set_current_file_index 0);;
  modify (set_current_bytes_offset 0).

Fixpoint close_all (fs : list nat) : M unit :=
  match fs with
  | [] => ret tt
  | f :: fs' => file_close f;; close_all fs'
  end.

Definition clear_play_queue : M unit :=
  s ← get;
  close_all (input_files s);;
  modify (set_input_files []);;
  clear_file_info.

Definition clear_hold_queue : M unit :=
  s ← get;
  close_all (hold_files s);;
  modify (set_hold_files []);;
  clear_file_info.

Definition unset_output_file : M unit :=
  s ← get;
  match output_file s with
  | Some f => file_close f
  | None => ret tt
  end;;
  modify (set_output None).

Definition play (f : file_arg) : M unit :=
  match f with
  | Path p =>
      h ← open_rb p;
      modify (fun s => set_input_files (input_files s ++ [h]) s)
  | Handle h =>
      o ← deref h;
      if bad_read_mode o then
        print "file must be opened in binary reading/updating mode"
      else modify (fun s => set_input_files (input_files s ++ [h]) s)
  end.

Fixpoint play_on_hold_loop (fs : list file_arg) : M unit :=
  match fs with
  | [] => ret tt
  | Path p :: fs' =>
      h ← open_rb p;
      modify (fun s => set_hold_files (hold_files s ++ [h]) s);;
      play_on_hold_loop fs'
  | Handle h :: fs' =>
      o ← deref h;
      (if bad_read_mode o then
         print "file must be opened in binary reading/updating mode"
       else modify (fun s => set_hold_files (hold_files s ++ [h]) s));;
      play_on_hold_loop fs'
  end.

Definition play_on_hold (files : hold_arg) : M unit :=
  match files with
  | NotSeq ty => print ("list, tuple or set expected, got " ++ ty)
  | Seq fs => clear_hold_queue;; play_on_hold_loop fs
  end.

Definition bad_write_mode (m : string) : bool :=
  negb (has_char "b" m) || negb (any_char_in "wxa+" m).

Definition set_output_file (f : file_arg) : M unit :=
  match f with
  | Path p => h ← open_wb p; modify (set_output (Some h))
  | Handle h =>
      o ← deref h;
      match f_mode o with
      | None => raise AttributeError
      | Some m =>
          if bad_write_mode m then
            print "file must be opened in binary writing/updating mode"
          else modify (set_output (Some h))
      end
  end.

Definition file_changed : M unit :=
  s ← get;
  modify (emit (FileChanged (current_file s) (current_file_index s))).

Definition file_progress (bytes_offset total_bytes : Z) (percentage : Q) : M unit :=
  s ← get;
  if last_progress_percentage s =? round1 percentage then ret tt
  else
    modify (set_last_progress_percentage (round1 percentage));;
    modify (emit (FileProgress bytes_offset total_bytes percentage)).

Definition previous_file : M (option nat) :=
  s ← get;
  match input_files s with
  | _ :: _ =>
      print "previous_file can only be used with play_on_hold";;
      ret None
  | [] =>
      let file_index := current_file_index s in
      file ← getitem (hold_files s) file_index;
      file_seek file 0;;
      modify (set_current_bytes_offset 0);;
      modify (set_current_file_index
                (if 0 <=? file_index - 1 then file_index - 1
                 else Z.of_nat (length (hold_files s)) - 1));;
      s' ← get;
      cur ← getitem (hold_files s') (current_file_index s');
      modify (set_current_file (Some cur));;
      ret (Some cur)
  end.

Definition next_file : M (option nat) :=
  s ← get;
  let file_index := current_file_index s in
  match input_files s with
  | _ :: _ =>
      file ← getitem (input_files s) file_index;
      file_close file;;
      modify (fun s => set_input_files (tail (input_files s)) s);;
      s' ← get;
      cur ← getitem (input_files s') (current_file_index s');
      modify (set_current_file (Some cur));;
      ret None
  | [] =>
      match hold_files s with
      | _ :: _ =>
          file ← getitem (hold_files s) file_index;
          file_seek file 0;;
          modify (set_current_bytes_offset 0);;
          modify (set_current_file_index
                    (if file_index + 1 <? Z.of_nat (length (hold_files s))
                     then file_index + 1 else 0));;
          s' ← get;
          cur ← getitem (hold_files s') (current_file_index s');
          modify (set_current_file (Some cur));;
          ret (Some cur)
      | [] => ret None
      end
  end.

Definition seek (bytes_offset : Z) (file_index : option Z) : M unit :=
  let bytes_offset := (bytes_offset / 2) * 2 in
  s ← get;
  let files := active_files s in
  match file_index with
  | None => raise TypeError
  | Some i =>
      if Z.of_nat (length files) <=? i then print "file index unnexistent"
      else
        modify (set_current_file_index i);;
        f ← getitem files i;
        modify (set_current_file (Some f));;
        modify (set_current_bytes_offset bytes_offset);;
        modify (set_force_seek true)
  end.

(** [self.last_file_name == name] *)
Definition name_is (last : option string) (n : string) : bool :=
  match last with
  | Some m => String.eqb m n
  | None => false
  end.

Definition _read_frame (length : nat) : M (option (list byte)) :=
  s ← get;
  let file_index := current_file_index s in
  let files := active_files s in
  if Z.of_nat (List.length files) <=? file_index then
    print "file index unnexistent";; ret None
  else
    file ← getitem files file_index;
    modify (set_current_file (Some file));;
    (if force_seek s then
       file_seek file (current_bytes_offset s);;
       modify (set_force_seek false)
     else ret tt);;
    frame ← file_read file length;
    off ← file_tell file;
    modify (set_current_bytes_offset off);;
    o ← deref file;
    size ← match f_size o with
           | Some sz => ret sz
           | None =>
               sz ← getsize (f_name o);
               store file (mkfile (f_name o) (f_mode o) (f_data o) (f_pos o)
                                  (f_closed o) (Some sz));;
               ret sz
           end;
    s1 ← get;
    (if name_is (last_file_name s1) (f_name o) then ret tt
     else file_changed;; modify (set_last_file_name (Some (f_name o))));;
    (if size =? 0 then raise ZeroDivisionError
     else if percentage_overflows off size then raise OverflowError
     else file_progress off size (percentage_of off size));;
    (if (List.length frame =? length)%nat then ret tt
     else next_file;; ret tt);;
    ret (Some frame).

(** ** Scenarios

    Concrete calls, each reached from a fresh instance through the public
    methods only. *)

Definition raw (n : nat) : list byte := repeat x2a n.

Definition fresh (d : list (string * list byte)) : state := init [] d.

(** One playback file of 10 bytes, then three reads of 4. *)
Definition one_file_disk : list (string * list byte) := [("a.raw"%string, raw 10)].
Definition one_file_queued : state := state_of (play (Path "a.raw") (fresh one_file_disk)).
Definition one_file_read1 : result (option (list byte)) := _read_frame 4 one_file_queued.
Definition one_file_read2 : result (option (list byte)) := _read_frame 4 (state_of one_file_read1).
Definition one_file_read3 : result (option (list byte)) := _read_frame 4 (state_of one_file_read2).

Definition is_file_changed (e : event) : bool :=
  match e with FileChanged _ _ => true | FileProgress _ _ _ => false end.
Definition is_file_progress (e : event) : bool :=
  match e with FileChanged _ _ => false | FileProgress _ _ _ => true end.
Definition count_file_changed (s : state) : nat := length (filter is_file_changed (events s)).
Definition count_file_progress (s : state) : nat := length (filter is_file_progress (events s)).

(** The part of [_read_frame] that follows [file.read(length)]. *)
Definition after_read (file : nat) (length : nat) (frame : list byte)
  : M (option (list byte)) :=
    off ← file_tell file;
    modify (set_current_bytes_offset off);;
    o ← deref file;
    size ← match f_size o with
           | Some sz => ret sz
           | None =>
               sz ← getsize (f_name o);
               store file (mkfile (f_name o) (f_mode o) (f_data o) (f_pos o)
                                  (f_closed o) (Some sz));;
               ret sz
           end;
    s1 ← get;
    (if name_is (last_file_name s1) (f_name o) then ret tt
     else file_changed;; modify (set_last_file_name (Some (f_name o))));;
    (if size =? 0 then raise ZeroDivisionError
     else if percentage_overflows off size then raise OverflowError
     else file_progress off size (percentage_of off size));;
    (if (List.length frame =? length)%nat then ret tt
     else next_file;; ret tt);;
    ret (Some frame).

(** Three playback files; a seek to the second one and a read past its end
    close it while the first one is popped, so the closed file becomes the
    head of the queue. *)
Definition three_files_disk : list (string * list byte) :=
  [("a.raw"%string, raw 10); ("b.raw"%string, raw 10); ("c.raw"%string, raw 10)].
Definition closed_head : state :=
  state_of ((play (Path "a.raw");; play (Path "b.raw");; play (Path "c.raw");;
             seek 0 (Some 1);; _read_frame 100) (fresh three_files_disk)).

(** A fresh instance on which [seek(0, -1)] was attempted. *)
Definition negative_cursor : state := state_of (seek 0 (Some (-1)) (fresh [])).

(** A caller-owned text-mode file object, a hold queue of one file, and
    then [play_on_hold] with a list holding only the text-mode object. *)
Definition text_handle : pyfile := mkfile "t.txt" (Some "r"%string) [] 0 false None.
Definition hold_one : state :=
  state_of (play_on_hold (Seq [Path "a.raw"]) (init [text_handle] one_file_disk)).

(** [file.seek(0)] seen on the file object. *)
Definition rewound (o : pyfile) : pyfile :=
  mkfile (f_name o) (f_mode o) (f_data o) 0 (f_closed o) (f_size o).

(** The set-up of [examples/make_call.py]: the same path queued for
    playback and put on hold. *)
Definition both_queues : state :=
  state_of ((play (Path "a.raw");; play_on_hold (Seq [Path "a.raw"]))
              (fresh one_file_disk)).

(** A hold queue of three files, the cursor on the second one. *)
Definition hold_three : state :=
  state_of ((play_on_hold (Seq [Path "a.raw"; Path "b.raw"; Path "c.raw"]);;
             seek 0 (Some 1)) (fresh three_files_disk)).

(** Successive reads, returning the offset recorded after each of them. *)
Fixpoint read_all (lengths : list nat) : M (list Z) :=
  match lengths with
  | [] => ret []
  | n :: ns =>
      _read_frame n;;
      s ← get;
      offs ← read_all ns;
      ret (current_bytes_offset s :: offs)
  end.

(** A fresh call playing one file of 10000 bytes, read in frames of
    1, 1, 98, 1 and 99 bytes. *)
Definition long_file_disk : list (string * list byte) := [("long.raw"%string, raw (100 * 100))].
Definition long_file_reads : result (list Z) :=
  (play (Path "long.raw");; read_all [1; 1; 98; 1; 99]%nat) (fresh long_file_disk).

(** [file.close()] seen on the file object. *)
Definition closed_file (o : pyfile) : pyfile :=
  mkfile (f_name o) (f_mode o) (f_data o) (f_pos o) true (f_size o).

(** A hold queue of two files with the cursor on the second one, and one
    file queued for playback afterwards. *)
Definition hold_two_play_one : state :=
  state_of ((play_on_hold (Seq [Path "a.raw"; Path "b.raw"]);;
             _read_frame 100;; play (Path "c.raw")) (fresh three_files_disk)).

(** Three playback files and a seek to the second one. *)
Definition seeked_second : state :=
  state_of ((play (Path "a.raw");; play (Path "b.raw");; play (Path "c.raw");;
             seek 0 (Some 1)) (fresh three_files_disk)).

(** A file object as [open(name, 'rb')] returns it for a 10-byte file. *)
Definition opened (name : string) : pyfile :=
  mkfile name (Some "rb"%string) (raw 10) 0 false None.

(** [k] successive advances past an exhausted source. *)
Fixpoint advance (k : nat) : M unit :=
  match k with
  | O => ret tt
  | S k' => next_file;; advance k'
  end.

(** Every file on hold is a live, open file object. *)
Definition hold_open (s : state) : Prop :=
  forall f, f ∈ hold_files s -> exists o, heap s !! f = Some o /\ f_closed o = false.

(** [h'] is [h] where some file objects have been rewound and nothing else
    has happened: no object added, dropped or closed. *)
Definition rewinds_only (h h' : list pyfile) : Prop :=
  length h' = length h /\
  forall fid o', h' !! fid = Some o' ->
    exists o, h !! fid = Some o /\ (o' = o \/ o' = rewound o).

Definition is_rewind (op : io_op) : Prop := exists f, op = IoSeek f 0.

(** A computation is [stable] when it leaves [force_seek] alone and only
    appends to the log of file operations. *)
Definition keeps (s s' : state) : Prop :=
  force_seek s' = force_seek s /\ exists tl, io_log s' = io_log s ++ tl.

Definition stable {A} (m : M A) : Prop := forall s, keeps s (state_of (m s)).

(** [__del__] *)
Definition __del__ : M unit :=
  clear_play_queue;; clear_hold_queue;; unset_output_file.

(** The size [_read_frame] works with: the [size] attribute when the object
    has one, the size on disk of the file named by the object otherwise. *)
Definition resolved_size (s : state) (o : pyfile) : option Z :=
  match f_size o with
  | Some sz => Some sz
  | None => (fun c => Z.of_nat (length c)) <$> lookup_disk (disk s) (f_name o)
  end.

Definition with_size (o : pyfile) (sz : Z) : pyfile :=
  mkfile (f_name o) (f_mode o) (f_data o) (f_pos o) (f_closed o) (Some sz).

Definition advanced (o : pyfile) (n : nat) : pyfile :=
  mkfile (f_name o) (f_mode o) (f_data o) (f_pos o + n)%nat (f_closed o) (f_size o).

(** The state [_read_frame] reaches between [file.read] and the test of the
    frame length, for a file object [o] (as it is after the read) of size
    [sz]: offset recorded, size cached, events emitted. *)
Definition noted_offset (o : pyfile) (s : state) : state :=
  set_current_bytes_offset (Z.of_nat (f_pos o)) s.

Definition noted_size (f : nat) (o : pyfile) (sz : Z) (s : state) : state :=
  match f_size o with
  | Some _ => s
  | None => set_heap (<[f := with_size o sz]> (heap s)) s
  end.

Definition noted_name (o : pyfile) (s : state) : state :=
  if name_is (last_file_name s) (f_name o) then s
  else set_last_file_name (Some (f_name o))
         (emit (FileChanged (current_file s) (current_file_index s)) s).

Definition noted_progress (o : pyfile) (sz : Z) (s : state) : state :=
  let off := Z.of_nat (f_pos o) in
  if last_progress_percentage s =? round1 (percentage_of off sz) then s
  else emit (FileProgress off sz (percentage_of off sz))
         (set_last_progress_percentage (round1 (percentage_of off sz)) s).

Definition bookkept (f : nat) (o : pyfile) (sz : Z) (s : state) : state :=
  noted_progress o sz (noted_name o (noted_size f o sz (noted_offset o s))).

(** Successive progress reports. *)
Fixpoint progress_all (reports : list (Z * Z * Q)) : M unit :=
  match reports with
  | [] => ret tt
  | (o, t, p) :: rs => file_progress o t p;; progress_all rs
  end.

(** No two neighbours of the list are equal. *)
Fixpoint no_repeat (l : list Z) : Prop :=
  match l with
  | [] => True
  | x :: l' => match l' with [] => True | y :: _ => x <> y end /\ no_repeat l'
  end.

Definition progress_value (e : event) : option Z :=
  match e with
  | FileProgress _ _ p => Some (round1 p)
  | FileChanged _ _ => None
  end.

(** What [file.read(n)] returns on the file object [o], and the state right
    after it in [_read_frame] when no seek is pending. *)
Definition frame_of (o : pyfile) (n : nat) : list byte :=
  take n (drop (f_pos o) (f_data o)).

Definition after_file_read (f : nat) (o : pyfile) (n : nat) (s : state) : state :=
  log_io (IoRead f n)
    (set_heap (<[f := advanced o (length (frame_of o n))]> (heap s))
       (set_current_file (Some f) s)).

(** Successive reads, returning what each of them returned. *)
Fixpoint read_frames (lengths : list nat) : M (list (option (list byte))) :=
  match lengths with
  | [] => ret []
  | n :: ns =>
      fr ← _read_frame n;
      frs ← read_frames ns;
      ret (fr :: frs)
  end.

(** [data] cut into consecutive pieces of the given lengths. *)
Fixpoint chunks (data : list byte) (lengths : list nat) : list (list byte) :=
  match lengths with
  | [] => []
  | n :: ns => take n data :: chunks (drop n data) ns
  end.

(** A fresh call with one empty file queued for playback. *)
Definition empty_file : pyfile := mkfile "e.raw" (Some "rb"%string) [] 0 false None.
Definition empty_file_queued : state :=
  state_of (play (Path "e.raw") (fresh [("e.raw"%string, [])])).

(** Two files queued for playback on a fresh call. *)
Definition both_played : state :=
  state_of ((play (Path "a.raw");; play (Path "b.raw")) (fresh three_files_disk)).

(** The heap after [close()] on each of [fs], in order. *)
Fixpoint closed_heap (fs : list nat) (h : list pyfile) : list pyfile :=
  match fs with
  | [] => h
  | f :: fs' =>
      closed_heap fs' (match h !! f with
                       | Some o => <[f := closed_file o]> h
                       | None => h
                       end)
  end.

(** [h'] holds the file objects of [h], each closed if it is one of [fs] and
    otherwise as it was. *)
Definition closes (fs : list nat) (h h' : list pyfile) : Prop :=
  length h' = length h /\
  forall g o, h !! g = Some o ->
    h' !! g = Some (if bool_decide (g ∈ fs) then closed_file o else o).

(** The handle names a file object that [play] accepts. *)
Definition readable (h : list pyfile) (f : nat) : bool :=
  match h !! f with
  | Some o => negb (bad_read_mode o)
  | None => false
  end.

(** The example script's set-up: a file queued for playback, the same path
    on hold, and an output file. *)
Definition all_set : state :=
  state_of ((play (Path "a.raw");; play_on_hold (Seq [Path "a.raw"]);;
             set_output_file (Path "out.raw")) (fresh one_file_disk)).

(** Two caller-owned file objects opened for binary writing. *)
Definition sink (name : string) : pyfile := mkfile name (Some "wb"%string) [] 0 false None.
Definition two_sinks : state := init [sink "x.raw"; sink "y.raw"] [].

(** Every file on hold can be read past its end by a read of [n] bytes: it
    is a live, open, readable file object shorter than [n], of a known size
    that is not zero, with a percentage that fits a float. *)
Definition hold_ready (n : nat) (s : state) : Prop :=
  forall f, f ∈ hold_files s ->
    exists o sz,
      heap s !! f = Some o /\ f_closed o = false /\ readable_mode o = true /\
      resolved_size s o = Some sz /\ sz <> 0 /\
      (length (f_data o) < n)%nat /\
      percentage_overflows
        (Z.of_nat (Nat.max (f_pos o) (length (f_data o)))) sz = false.

(** [h'] holds the file objects of [h]: none added, dropped, closed, renamed
    or rewritten; a position is as it was or 0. *)
Definition kept_files (h h' : list pyfile) : Prop :=
  length h' = length h /\
  forall fid o', h' !! fid = Some o' ->
    exists o, h !! fid = Some o /\
      f_name o' = f_name o /\ f_mode o' = f_mode o /\ f_data o' = f_data o /\
      f_closed o' = f_closed o /\ (f_pos o' = f_pos o \/ f_pos o' = 0%nat).

Definition is_close (op : io_op) : Prop := exists g, op = IoClose g.

(** Two files on hold, the second one empty. *)
Definition hold_with_empty : state :=
  state_of (play_on_hold (Seq [Path "a.raw"; Path "e.raw"])
              (fresh [("a.raw"%string, raw 10); ("e.raw"%string, [])])).

(** One caller-owned file object queued twice for playback, and a seek to
    the second entry. *)
Definition same_twice : state :=
  state_of ((play (Handle 0);; play (Handle 0);; seek 0 (Some 1))
              (init [opened "a.raw"] one_file_disk)).

(** A hold queue of three files on a fresh call. *)
Definition hold_three_fresh : state :=
  state_of (play_on_hold (Seq [Path "a.raw"; Path "b.raw"; Path "c.raw"])
              (fresh three_files_disk)).

(** * Properties *)

(** ** Reasoning about computations *)

Ltac run := cbv [mbind M_bind bind ret raise get modify print state_of].

Lemma bind_ok {A B} (m : M A) (k : A -> M B) s a s' :
  m s = Ok a s' -> (m ≫= k) s = k a s'.
Proof. intros H. run. now rewrite H. Qed.

Lemma bind_raise {A B} (m : M A) (k : A -> M B) s e s' :
  m s = Raise e s' -> (m ≫= k) s = Raise e s'.
Proof. intros H. unfold mbind, M_bind, bind. now rewrite H. Qed.

Lemma keeps_refl s : keeps s s.
Proof. split; [reflexivity | exists []; now rewrite app_nil_r]. Qed.

Lemma keeps_trans s1 s2 s3 : keeps s1 s2 -> keeps s2 s3 -> keeps s1 s3.
Proof.
  intros [F1 [t1 L1]] [F2 [t2 L2]]. split; [congruence|].
  exists (t1 ++ t2). now rewrite L2, L1, app_assoc.
Qed.

Lemma stable_ret {A} (a : A) : stable (ret a).
Proof. intros s. apply keeps_refl. Qed.

Lemma stable_raise {A} e : stable (@raise A e).
Proof. intros s. apply keeps_refl. Qed.

Lemma stable_get : stable get.
Proof. intros s. apply keeps_refl. Qed.

Lemma stable_bind {A B} (m : M A) (k : A -> M B) :
  stable m -> (forall a, stable (k a)) -> stable (m ≫= k).
Proof.
  intros Hm Hk s. specialize (Hm s). unfold mbind, M_bind, bind.
  destruct (m s) as [a s'|e s']; simpl in *; [|exact Hm].
  eapply keeps_trans; [exact Hm | apply Hk].
Qed.

Lemma stable_modify f : (forall s, keeps s (f s)) -> stable (modify f).
Proof. intros H s. apply H. Qed.

Lemma keeps_log_io o s : keeps s (log_io o s).
Proof. split; [reflexivity | now exists [o]]. Qed.

Ltac stable_field := intros ?; split; [reflexivity | exists []; simpl; now rewrite app_nil_r].

Ltac stable_step :=
  first
    [ apply stable_ret | apply stable_raise | apply stable_get
    | apply stable_bind; [|intros ?]
    | apply stable_modify; first [apply keeps_log_io | stable_field]
    | match goal with
      | |- stable (if ?b then _ else _) => destruct b
      | |- stable (match ?x with _ => _ end) => destruct x
      end ].

Lemma stable_deref fid : stable (deref fid).
Proof. unfold deref. repeat stable_step. Qed.

Lemma stable_store fid f : stable (store fid f).
Proof. unfold store. repeat stable_step. Qed.

Lemma stable_getitem l i : stable (getitem l i).
Proof. unfold getitem. repeat stable_step. Qed.

Lemma stable_getsize p : stable (getsize p).
Proof. unfold getsize. repeat stable_step. Qed.

Lemma stable_print msg : stable (print msg).
Proof. unfold print. repeat stable_step. Qed.

Create HintDb stable.
#[local] Hint Resolve stable_deref stable_store stable_getitem stable_getsize
  stable_print : stable.

Ltac stable_auto := repeat first [solve [auto with stable] | stable_step].

Lemma stable_file_seek fid off : stable (file_seek fid off).
Proof. unfold file_seek. stable_auto. Qed.

Lemma stable_file_read fid n : stable (file_read fid n).
Proof. unfold file_read. stable_auto. Qed.

Lemma stable_file_tell fid : stable (file_tell fid).
Proof. unfold file_tell. stable_auto. Qed.

Lemma stable_file_close fid : stable (file_close fid).
Proof. unfold file_close. stable_auto. Qed.

#[local] Hint Resolve stable_file_seek stable_file_read stable_file_tell
  stable_file_close : stable.

Lemma stable_file_changed : stable file_changed.
Proof. unfold file_changed. stable_auto. Qed.

Lemma stable_file_progress o t p : stable (file_progress o t p).
Proof. unfold file_progress. stable_auto. Qed.

Lemma stable_next_file : stable next_file.
Proof. unfold next_file. stable_auto. Qed.

#[local] Hint Resolve stable_file_changed stable_file_progress
  stable_next_file : stable.

Lemma stable_after_read f n fr : stable (after_read f n fr).
Proof. unfold after_read. stable_auto. Qed.

(** The primitives on a live file object. *)
Lemma deref_ok s f o : heap s !! f = Some o -> deref f s = Ok o s.
Proof. intros H. unfold deref. run. now rewrite H. Qed.

Lemma seek_limit_small s off : off <= 2 ^ 31 - 1 -> off <= seek_limit s.
Proof. unfold seek_limit. lia. Qed.

Lemma file_seek_ok s f o off :
  heap s !! f = Some o -> f_closed o = false ->
  0 <= off -> off <= seek_limit s -> off < 2 ^ 63 ->
  file_seek f off s =
    Ok tt (log_io (IoSeek f off)
             (set_heap (<[f := mkfile (f_name o) (f_mode o) (f_data o) (Z.to_nat off)
                                      (f_closed o) (f_size o)]> (heap s)) s)).
Proof.
  intros Ho Hc H0 Hl H63. unfold file_seek.
  rewrite (bind_ok _ _ s o s (deref_ok s f o Ho)). rewrite Hc.
  unfold store. run. change (seek_limit (log_io _ s)) with (seek_limit s).
  destruct (Z.ltb_spec off (- 2 ^ 63)); [lia|].
  destruct (Z.leb_spec (2 ^ 63) off); [lia|].
  destruct (Z.ltb_spec off 0); [lia|].
  destruct (Z.ltb_spec (seek_limit s) off); [lia|].
  reflexivity.
Qed.

Lemma file_read_ok s f o n :
  heap s !! f = Some o -> f_closed o = false -> readable_mode o = true ->
  file_read f n s =
    Ok (take n (drop (f_pos o) (f_data o)))
       (log_io (IoRead f n)
          (set_heap (<[f := mkfile (f_name o) (f_mode o) (f_data o)
                             (f_pos o + length (take n (drop (f_pos o) (f_data o))))%nat
                             (f_closed o) (f_size o)]> (heap s)) s)).
Proof.
  intros Ho Hc Hr. unfold file_read.
  rewrite (bind_ok _ _ s o s (deref_ok s f o Ho)). rewrite Hc, Hr.
  unfold store. run. reflexivity.
Qed.

Lemma file_read_unreadable s f o n :
  heap s !! f = Some o -> f_closed o = false -> readable_mode o = false ->
  file_read f n s = Raise UnsupportedOperation (log_io (IoRead f n) s).
Proof.
  intros Ho Hc Hr. unfold file_read.
  rewrite (bind_ok _ _ s o s (deref_ok s f o Ho)). rewrite Hc, Hr.
  reflexivity.
Qed.

(** [_read_frame] once the current file is found. *)
Lemma read_frame_head s f n :
  py_index (active_files s) (current_file_index s) = Some f ->
  current_file_index s < Z.of_nat (length (active_files s)) ->
  _read_frame n s =
    ((if force_seek s then
        file_seek f (current_bytes_offset s);; modify (set_force_seek false)
      else ret tt);;
     frame ← file_read f n; after_read f n frame) (set_current_file (Some f) s).
Proof.
  intros Hf Hi. unfold _read_frame, getitem. run. rewrite Hf.
  destruct (Z.leb_spec (Z.of_nat (length (active_files s))) (current_file_index s));
    [lia|].
  reflexivity.
Qed.

(** A read with a seek pending, on an open file and an offset the seek
    accepts: the file is repositioned and read; the rest is [after_read],
    unless the object is not one that can be read. *)
Lemma read_frame_seeking s f o n :
  py_index (active_files s) (current_file_index s) = Some f ->
  current_file_index s < Z.of_nat (length (active_files s)) ->
  force_seek s = true ->
  0 <= current_bytes_offset s -> current_bytes_offset s <= seek_limit s ->
  current_bytes_offset s < 2 ^ 63 ->
  heap s !! f = Some o -> f_closed o = false ->
  exists s3,
    force_seek s3 = false /\
    io_log s3 = io_log s ++ [IoSeek f (current_bytes_offset s); IoRead f n] /\
    (_read_frame n s =
       after_read f n (take n (drop (Z.to_nat (current_bytes_offset s)) (f_data o))) s3
     \/ _read_frame n s = Raise UnsupportedOperation s3).
Proof.
  intros Hf Hi Hs H0 Hl H63 Ho Hc.
  assert (Hlt : (f < length (heap s))%nat) by (eapply lookup_lt_Some; eauto).
  rewrite (read_frame_head s f n Hf Hi), Hs.
  set (o1 := mkfile (f_name o) (f_mode o) (f_data o)
               (Z.to_nat (current_bytes_offset s)) (f_closed o) (f_size o)).
  set (s1 := set_current_file (Some f) s).
  set (s2 := set_force_seek false
               (log_io (IoSeek f (current_bytes_offset s))
                  (set_heap (<[f := o1]> (heap s)) s1))).
  assert (E1 : (file_seek f (current_bytes_offset s);; modify (set_force_seek false)) s1
               = Ok tt s2).
  { rewrite (bind_ok _ _ s1 tt _ (file_seek_ok s1 f o _ Ho Hc H0 Hl H63)).
    reflexivity. }
  rewrite (bind_ok _ _ s1 tt _ E1).
  assert (Ho2 : heap s2 !! f = Some o1)
    by (apply list_lookup_insert_eq; exact Hlt).
  destruct (readable_mode o) eqn:Hr.
  - eexists. split; [|split; [|left]].
    3: { rewrite (bind_ok _ _ s2 _ _ (file_read_ok s2 f o1 n Ho2 Hc Hr)).
         reflexivity. }
    + reflexivity.
    + simpl. now rewrite <- app_assoc.
  - eexists. split; [|split; [|right]].
    3: { apply bind_raise. apply (file_read_unreadable s2 f o1 n Ho2 Hc Hr). }
    + reflexivity.
    + simpl. now rewrite <- app_assoc.
Qed.

Lemma bind_result {A B} (m : M A) (k : A -> M B) s b s' :
  (m ≫= k) s = Ok b s' -> exists a s1, m s = Ok a s1 /\ k a s1 = Ok b s'.
Proof.
  unfold mbind, M_bind, bind. destruct (m s) as [a s1|e s1]; [eauto|discriminate].
Qed.

Lemma after_read_returns f n fr s r s' :
  after_read f n fr s = Ok r s' -> r = Some fr.
Proof.
  unfold after_read. intros H.
  repeat (apply bind_result in H; destruct H as (? & ? & _ & H)).
  now inversion H.
Qed.

(** ** Playback of a single file *)

(** C1. A single 10-byte playback file read in frames of 4: the first two
    reads return 4 bytes each and the only file-changed event fires on the
    first one; the third read takes the last 2 bytes, closes and pops the
    file, and then fails with [IndexError] in [next_file], which indexes the
    emptied deque, so the 2-byte frame is never returned. *)
Theorem single_file_third_read_raises :
  one_file_read1 = Ok (Some (raw 4)) (state_of one_file_read1) /\
  count_file_changed (state_of one_file_read1) = 1%nat /\
  one_file_read2 = Ok (Some (raw 4)) (state_of one_file_read2) /\
  one_file_read3 = Raise IndexError (state_of one_file_read3) /\
  input_files (state_of one_file_read3) = [] /\
  count_file_changed (state_of one_file_read3) = 1%nat /\
  current_bytes_offset (state_of one_file_read3) = 10.
Proof. repeat apply conj; vm_compute; reflexivity. Qed.

(** ** Seeking *)

(** C10. [seek] called without a source index compares [None] with the queue
    length: it raises [TypeError] in every state, and the state carried by
    the exception is the one before the call. *)
Theorem seek_without_index_raises (s : state) (bytes_offset : Z) :
  seek bytes_offset None s = Raise TypeError s.
Proof. reflexivity. Qed.

(** C4 (as amended). On a non-empty active queue [seek(7, 0)] succeeds, sets
    the offset to 6, the index to 0 and [force_seek]; when the source at
    index 0 is open, the next [_read_frame] first repositions it to 6 (one
    seek, directly followed by the read), clears [force_seek], and any frame
    it returns is read from offset 6. *)
Theorem seek_7_0_then_read (s : state) (f : nat) (rest : list nat) :
  active_files s = f :: rest ->
  let s1 := state_of (seek 7 (Some 0) s) in
  seek 7 (Some 0) s = Ok tt s1 /\
  current_bytes_offset s1 = 6 /\ force_seek s1 = true /\
  current_file_index s1 = 0 /\ current_file s1 = Some f /\
  forall o n, heap s !! f = Some o -> f_closed o = false ->
    let r := _read_frame n s1 in
    force_seek (state_of r) = false /\
    (exists tl, io_log (state_of r) = io_log s ++ IoSeek f 6 :: IoRead f n :: tl) /\
    (forall fr s2, r = Ok fr s2 -> fr = Some (take n (drop 6 (f_data o)))).
Proof.
  intros Ha.
  assert (Hs : seek 7 (Some 0) s =
               Ok tt (set_force_seek true (set_current_bytes_offset 6
                        (set_current_file (Some f) (set_current_file_index 0 s))))).
  { unfold seek, getitem. run. rewrite Ha. reflexivity. }
  rewrite Hs. simpl. repeat apply conj; try reflexivity.
  intros o n Hh Hc.
  set (s1 := set_force_seek true (set_current_bytes_offset 6
               (set_current_file (Some f) (set_current_file_index 0 s)))).
  assert (Hf1 : py_index (active_files s1) (current_file_index s1) = Some f).
  { change (active_files s1) with (active_files s). rewrite Ha. reflexivity. }
  assert (Hi1 : current_file_index s1 < Z.of_nat (length (active_files s1))).
  { change (active_files s1) with (active_files s). rewrite Ha. simpl. lia. }
  assert (H01 : 0 <= current_bytes_offset s1) by (simpl; lia).
  assert (Hl1 : current_bytes_offset s1 <= seek_limit s1)
    by (apply seek_limit_small; simpl; lia).
  assert (H631 : current_bytes_offset s1 < 2 ^ 63) by (simpl; lia).
  destruct (read_frame_seeking s1 f o n Hf1 Hi1 eq_refl H01 Hl1 H631 Hh Hc)
    as (s3 & Hf3 & Hl3 & Hr).
  simpl in Hl3. change (Z.to_nat (current_bytes_offset s1)) with 6%nat in Hr.
  destruct Hr as [Hr|Hr]; rewrite Hr.
  - destruct (stable_after_read f n (take n (drop 6 (f_data o))) s3)
      as [Hk [tl Htl]].
    repeat apply conj.
    + congruence.
    + exists tl. rewrite Htl, Hl3, <- app_assoc. reflexivity.
    + intros fr s2 E. now apply after_read_returns in E.
  - simpl. repeat apply conj.
    + exact Hf3.
    + exists []. rewrite Hl3. reflexivity.
    + intros fr s2 E. discriminate E.
Qed.

Lemma seek_7_0_then_read_witness :
  let s1 := state_of (seek 7 (Some 0) one_file_queued) in
  seek 7 (Some 0) one_file_queued = Ok tt s1 /\
  current_bytes_offset s1 = 6 /\ force_seek s1 = true /\
  current_file_index s1 = 0 /\ current_file s1 = Some 0%nat /\
  forall o n, heap one_file_queued !! 0%nat = Some o -> f_closed o = false ->
    let r := _read_frame n s1 in
    force_seek (state_of r) = false /\
    (exists tl, io_log (state_of r) =
                io_log one_file_queued ++ IoSeek 0 6 :: IoRead 0 n :: tl) /\
    (forall fr s2, r = Ok fr s2 -> fr = Some (take n (drop 6 (f_data o)))).
Proof. apply (seek_7_0_then_read one_file_queued 0%nat []). reflexivity. Defined.

(** C4 fails as stated: the head of a non-empty playback queue can be a
    closed file.  After [seek(7, 0)] the read raises [ValueError] at the
    seek, repositions nothing and leaves [force_seek] set. *)
Lemma seek_7_0_on_closed_head :
  active_files closed_head <> [] /\
  let s1 := state_of (seek 7 (Some 0) closed_head) in
  current_bytes_offset s1 = 6 /\ force_seek s1 = true /\
  _read_frame 4 s1 = Raise ValueError (set_current_file (Some 1%nat) s1) /\
  force_seek (state_of (_read_frame 4 s1)) = true /\
  io_log (state_of (_read_frame 4 s1)) = io_log closed_head.
Proof. split; [discriminate|]. repeat apply conj; vm_compute; reflexivity. Qed.

(** ** Reads without an active source *)

(** C6 (as amended). The read looks at the hold queue when it is non-empty
    and at the playback queue otherwise; when the index is not less than the
    length of that queue, it prints the diagnostic, returns [None] and
    changes nothing else. *)
Theorem read_frame_no_active_source (s : state) (n : nat) :
  (hold_files s <> [] -> Z.of_nat (length (hold_files s)) <= current_file_index s) ->
  (hold_files s = [] -> Z.of_nat (length (input_files s)) <= current_file_index s) ->
  _read_frame n s = Ok None (put_line "file index unnexistent" s) /\
  let s' := state_of (_read_frame n s) in
  heap s' = heap s /\ input_files s' = input_files s /\
  hold_files s' = hold_files s /\
  current_file_index s' = current_file_index s /\
  current_bytes_offset s' = current_bytes_offset s /\
  current_file s' = current_file s /\
  last_file_name s' = last_file_name s /\
  force_seek s' = force_seek s /\ events s' = events s /\ io_log s' = io_log s.
Proof.
  intros Hh Hi.
  assert (E : _read_frame n s = Ok None (put_line "file index unnexistent" s)).
  { unfold _read_frame, active_files. run.
    destruct (hold_files s) as [|h hs] eqn:Eh.
    - destruct (Z.leb_spec (Z.of_nat (length (input_files s))) (current_file_index s));
        [reflexivity | specialize (Hi eq_refl); lia].
    - destruct (Z.leb_spec (Z.of_nat (length (h :: hs))) (current_file_index s));
        [reflexivity | assert (h :: hs <> []) as X by discriminate;
                       specialize (Hh X); lia]. }
  rewrite E. split; [reflexivity|]. simpl. repeat apply conj; reflexivity.
Qed.

Lemma read_frame_no_active_source_witness :
  _read_frame 4 (fresh []) = Ok None (put_line "file index unnexistent" (fresh [])) /\
  let s' := state_of (_read_frame 4 (fresh [])) in
  heap s' = heap (fresh []) /\ input_files s' = input_files (fresh []) /\
  hold_files s' = hold_files (fresh []) /\
  current_file_index s' = current_file_index (fresh []) /\
  current_bytes_offset s' = current_bytes_offset (fresh []) /\
  current_file s' = current_file (fresh []) /\
  last_file_name s' = last_file_name (fresh []) /\
  force_seek s' = force_seek (fresh []) /\ events s' = events (fresh []) /\
  io_log s' = io_log (fresh []).
Proof.
  apply (read_frame_no_active_source (fresh []) 4).
  - intros H. exfalso. apply H. reflexivity.
  - intros _. simpl. lia.
Defined.

(** C6 fails as stated: with both queues empty and the index at -1 (left
    there by [seek(0, -1)]), the read raises [IndexError]; no diagnostic is
    printed. *)
Lemma read_frame_empty_negative_index :
  hold_files negative_cursor = [] /\ input_files negative_cursor = [] /\
  current_file_index negative_cursor = -1 /\
  _read_frame 4 negative_cursor = Raise IndexError negative_cursor.
Proof. repeat apply conj; vm_compute; reflexivity. Qed.

(** ** Closing files and filling the hold queue *)

Lemma closed_file_idem o : closed_file (closed_file o) = closed_file o.
Proof. reflexivity. Qed.

Lemma closes_nil h : closes [] h h.
Proof. split; [reflexivity|]. intros g o H. exact H. Qed.

Lemma closes_cons f fs h o h' :
  h !! f = Some o -> closes fs (<[f := closed_file o]> h) h' ->
  closes (f :: fs) h h'.
Proof.
  intros Hf [L R]. split; [rewrite L; apply length_insert|].
  intros g og Hg. destruct (decide (g = f)) as [->|Hne].
  - rewrite Hf in Hg. inversion Hg; subst og.
    rewrite (R f (closed_file o)).
    + rewrite (bool_decide_eq_true_2 (f ∈ f :: fs)) by (left; reflexivity).
      destruct (bool_decide (f ∈ fs)); reflexivity.
    + apply list_lookup_insert_eq. eapply lookup_lt_Some; eauto.
  - rewrite (R g og) by (rewrite list_lookup_insert_ne; auto).
    destruct (bool_decide (g ∈ fs)) eqn:E.
    + rewrite (bool_decide_eq_true_2 (g ∈ f :: fs)); [reflexivity|].
      right. now apply bool_decide_eq_true_1 in E.
    + rewrite (bool_decide_eq_false_2 (g ∈ f :: fs)); [reflexivity|].
      intros Hin. apply elem_of_cons in Hin. destruct Hin as [?|Hin]; [auto|].
      apply bool_decide_eq_false_1 in E. contradiction.
Qed.

Lemma closed_heap_closes (fs : list nat) : forall h,
  (forall f, f ∈ fs -> (f < length h)%nat) -> closes fs h (closed_heap fs h).
Proof.
  induction fs as [|f fs IH]; intros h Hl; simpl.
  - apply closes_nil.
  - destruct (lookup_lt_is_Some_2 h f) as [o Ho]; [apply Hl; left|].
    rewrite Ho. eapply closes_cons; [exact Ho|].
    apply IH. intros g Hg. rewrite length_insert. apply Hl. now right.
Qed.

Lemma close_all_ok (fs : list nat) : forall s,
  (forall f, f ∈ fs -> (f < length (heap s))%nat) ->
  close_all fs s =
    Ok tt (mkstate (closed_heap fs (heap s)) (disk s) (input_files s) (hold_files s)
             (current_file_index s) (last_file_name s) (current_file s)
             (current_bytes_offset s) (force_seek s) (output_file s)
             (last_progress_percentage s) (events s) (stdout s)
             (io_log s ++ (IoClose <$> fs)) (max_offset s)).
Proof.
  induction fs as [|f fs IH]; intros s Hl.
  - simpl. rewrite app_nil_r. unfold ret. now destruct s.
  - destruct (lookup_lt_is_Some_2 (heap s) f) as [o Ho]; [apply Hl; left|].
    simpl. unfold file_close, deref, store. run. rewrite Ho. simpl.
    fold (closed_file o).
    match goal with |- close_all fs ?x = _ => rewrite (IH x) end.
    + simpl. rewrite <- app_assoc. reflexivity.
    + intros g Hg. simpl. rewrite length_insert. apply Hl. now right.
Qed.

Lemma clear_play_queue_eq s :
  (forall f, f ∈ input_files s -> (f < length (heap s))%nat) ->
  clear_play_queue s =
    Ok tt (mkstate (closed_heap (input_files s) (heap s)) (disk s) [] (hold_files s)
             0 None None 0 (force_seek s) (output_file s)
             (last_progress_percentage s) (events s) (stdout s)
             (io_log s ++ (IoClose <$> input_files s)) (max_offset s)).
Proof.
  intros Hl. unfold clear_play_queue, clear_file_info.
  unfold mbind at 1, M_bind at 1, bind at 1, get at 1.
  rewrite (bind_ok _ _ s tt _ (close_all_ok (input_files s) s Hl)).
  reflexivity.
Qed.

Lemma clear_hold_queue_eq s :
  (forall f, f ∈ hold_files s -> (f < length (heap s))%nat) ->
  clear_hold_queue s =
    Ok tt (mkstate (closed_heap (hold_files s) (heap s)) (disk s) (input_files s) []
             0 None None 0 (force_seek s) (output_file s)
             (last_progress_percentage s) (events s) (stdout s)
             (io_log s ++ (IoClose <$> hold_files s)) (max_offset s)).
Proof.
  intros Hl. unfold clear_hold_queue, clear_file_info.
  unfold mbind at 1, M_bind at 1, bind at 1, get at 1.
  rewrite (bind_ok _ _ s tt _ (close_all_ok (hold_files s) s Hl)).
  reflexivity.
Qed.

Lemma readable_closes fs h h' f :
  closes fs h h' -> readable h' f = readable h f.
Proof.
  intros [L R]. unfold readable. destruct (h !! f) as [o|] eqn:E.
  - rewrite (R f o E). destruct (bool_decide (f ∈ fs)); reflexivity.
  - apply lookup_ge_None in E. rewrite <- L in E.
    apply lookup_ge_None in E. now rewrite E.
Qed.

Lemma play_on_hold_loop_handles (hs : list nat) : forall s,
  (forall h, h ∈ hs -> (h < length (heap s))%nat) ->
  play_on_hold_loop (Handle <$> hs) s =
    Ok tt (mkstate (heap s) (disk s) (input_files s)
             (hold_files s ++ filter (readable (heap s)) hs)
             (current_file_index s) (last_file_name s) (current_file s)
             (current_bytes_offset s) (force_seek s) (output_file s)
             (last_progress_percentage s) (events s)
             (stdout s ++ replicate (length hs - length (filter (readable (heap s)) hs))
                           "file must be opened in binary reading/updating mode"%string)
             (io_log s) (max_offset s)).
Proof.
  induction hs as [|h hs IH]; intros s Hl.
  - simpl. rewrite !app_nil_r. unfold ret. now destruct s.
  - destruct (lookup_lt_is_Some_2 (heap s) h) as [o Ho]; [apply Hl; left|].
    assert (Hl' : forall g, g ∈ hs -> (g < length (heap s))%nat)
      by (intros g Hg; apply Hl; now right).
    pose proof (length_filter (readable (heap s)) hs) as Hle.
    rewrite fmap_cons. cbn [play_on_hold_loop].
    rewrite (bind_ok _ _ s o s) by (unfold deref; run; now rewrite Ho).
    destruct (bad_read_mode o) eqn:Eb.
    + erewrite bind_ok by reflexivity.
      rewrite IH by exact Hl'.
      simpl. rewrite filter_cons_False
        by (unfold readable; rewrite Ho, Eb; simpl; tauto).
      f_equal. f_equal.
      rewrite <- app_assoc. f_equal.
      replace (S (length hs) - length (filter (readable (heap s)) hs))%nat
        with (S (length hs - length (filter (readable (heap s)) hs))) by lia.
      reflexivity.
    + erewrite bind_ok by reflexivity.
      rewrite IH by exact Hl'.
      simpl. rewrite filter_cons_True
        by (unfold readable; rewrite Ho, Eb; simpl; tauto).
      rewrite <- app_assoc. reflexivity.
Qed.

(** ** Validation failures of the mutators *)




Lemma py_index_nonneg {A} (l : list A) (i : Z) :
  0 <= i -> py_index l i = l !! Z.to_nat i.
Proof.
  intros H. unfold py_index.
  destruct (Z.leb_spec 0 i); [reflexivity | lia].
Qed.

Lemma getitem_in_range (l : list nat) (i : Z) (x : nat) (s : state) :
  0 <= i -> l !! Z.to_nat i = Some x -> getitem l i s = Ok x s.
Proof.
  intros H E. unfold getitem. rewrite py_index_nonneg by exact H.
  now rewrite E.
Qed.

(** ** Stepping back in the hold queue *)

(** C3 (as amended). [previous_file] prints its diagnostic, returns [None]
    and changes nothing else exactly when the playback queue is non-empty,
    whatever the hold queue holds.  With an empty playback queue, a cursor
    inside the hold queue and an open current source, it rewinds that
    source, resets the offset and moves the index one step back modulo the
    length of the hold queue. *)
Theorem previous_file_spec (s : state) :
  (input_files s <> [] ->
   previous_file s =
     Ok None (put_line "previous_file can only be used with play_on_hold" s)) /\
  (input_files s = [] -> stdout (state_of (previous_file s)) = stdout s) /\
  (input_files s = [] ->
   forall f o,
     0 <= current_file_index s < Z.of_nat (length (hold_files s)) ->
     hold_files s !! Z.to_nat (current_file_index s) = Some f ->
     heap s !! f = Some o -> f_closed o = false ->
     let i' := (current_file_index s - 1) mod Z.of_nat (length (hold_files s)) in
     exists cur,
       hold_files s !! Z.to_nat i' = Some cur /\
       previous_file s =
         Ok (Some cur)
            (set_current_file (Some cur)
               (set_current_file_index i'
                  (set_current_bytes_offset 0
                     (log_io (IoSeek f 0)
                        (set_heap (<[f := rewound o]> (heap s)) s)))))).
Proof.
  repeat apply conj.
  - intros Hin. unfold previous_file. run.
    destruct (input_files s); [contradiction | reflexivity].
  - intros Hin. unfold previous_file, getitem, file_seek, deref, store. run.
    rewrite Hin. simpl.
    repeat match goal with
           | |- context [match py_index ?l ?i with _ => _ end] =>
               destruct (py_index l i); simpl
           | |- context [match ?h !! ?f with _ => _ end] =>
               destruct (h !! f); simpl
           | |- context [if f_closed ?p then _ else _] =>
               destruct (f_closed p); simpl
           | |- context [if seek_limit ?x <? ?y then _ else _] =>
               destruct (seek_limit x <? y); simpl
           end; reflexivity.
  - intros Hin f o Hr Hf Ho Hc i'.
    set (len := Z.of_nat (length (hold_files s))) in *.
    assert (Hi' : 0 <= i' < len) by (apply Z.mod_pos_bound; lia).
    assert (Hnew : (if 0 <=? current_file_index s - 1
                    then current_file_index s - 1 else len - 1) = i').
    { subst i'. destruct (Z.leb_spec 0 (current_file_index s - 1)).
      - rewrite Z.mod_small by lia. reflexivity.
      - assert (current_file_index s = 0) as -> by lia.
        replace (0 - 1) with (-1 * len + (len - 1)) by lia.
        rewrite Z.add_comm, Z.mod_add by lia.
        rewrite Z.mod_small by lia. reflexivity. }
    destruct (lookup_lt_is_Some_2 (hold_files s) (Z.to_nat i')) as [cur Hcur];
      [subst len; lia|].
    exists cur. split; [exact Hcur|].
    unfold previous_file. run. rewrite Hin.
    rewrite (getitem_in_range _ _ f) by (lia || assumption).
    rewrite (file_seek_ok s f o 0 Ho Hc) by (try apply seek_limit_small; lia).
    simpl. fold len. rewrite Hnew.
    rewrite (getitem_in_range _ _ cur) by (lia || assumption).
    reflexivity.
Qed.

Lemma previous_file_spec_witness :
  exists cur,
    hold_files hold_three !! 0%nat = Some cur /\
    previous_file hold_three =
      Ok (Some cur)
         (set_current_file (Some cur)
            (set_current_file_index 0
               (set_current_bytes_offset 0
                  (log_io (IoSeek 1 0)
                     (set_heap (<[1%nat := rewound (opened "b.raw")]> (heap hold_three))
                        hold_three))))).
Proof.
  apply (proj2 (proj2 (previous_file_spec hold_three)) eq_refl 1%nat (opened "b.raw"));
    [split; [intros H; vm_compute in H; discriminate H | vm_compute; reflexivity]
    | reflexivity .. ].
Defined.

(** C3 fails as stated: with a hold queue in operation and a file also
    queued for playback, [previous_file] only prints its diagnostic. *)
Lemma previous_file_refused_on_hold :
  hold_files both_queues = [1%nat] /\ input_files both_queues = [0%nat] /\
  active_files both_queues = hold_files both_queues /\
  previous_file both_queues =
    Ok None (put_line "previous_file can only be used with play_on_hold" both_queues).
Proof. repeat apply conj; vm_compute; reflexivity. Qed.

(** ** Progress events *)

Lemma file_progress_same s o t p :
  last_progress_percentage s = round1 p -> file_progress o t p s = Ok tt s.
Proof.
  intros H. unfold file_progress. run. rewrite H, Z.eqb_refl. reflexivity.
Qed.

Lemma file_progress_new s o t p :
  last_progress_percentage s <> round1 p ->
  file_progress o t p s =
    Ok tt (emit (FileProgress o t p) (set_last_progress_percentage (round1 p) s)).
Proof.
  intros H. unfold file_progress. run.
  destruct (Z.eqb_spec (last_progress_percentage s) (round1 p)); [contradiction|].
  reflexivity.
Qed.

(** C2 (as amended). Five progress reports whose percentages round to
    0.0, 0.0, 1.0, 1.0 and 2.0 emit the reports for 1.0 and 2.0, preceded by
    the first report for 0.0 only when the last recorded percentage is not
    already 0.0: three events in ascending order after a non-zero recorded
    value, two on a call whose recorded value is still its initial 0. *)
Theorem progress_dedup (s : state) (o1 o2 o3 o4 o5 t1 t2 t3 t4 t5 : Z)
    (p1 p2 p3 p4 p5 : Q) :
  round1 p1 = 0 -> round1 p2 = 0 -> round1 p3 = 10 -> round1 p4 = 10 ->
  round1 p5 = 20 ->
  let r := (file_progress o1 t1 p1;; file_progress o2 t2 p2;;
            file_progress o3 t3 p3;; file_progress o4 t4 p4;;
            file_progress o5 t5 p5) s in
  r = Ok tt (state_of r) /\
  events (state_of r) =
    events s ++
    (if last_progress_percentage s =? 0 then [] else [FileProgress o1 t1 p1]) ++
    [FileProgress o3 t3 p3; FileProgress o5 t5 p5] /\
  last_progress_percentage (state_of r) = 20.
Proof.
  intros H1 H2 H3 H4 H5. cbv zeta.
  destruct (Z.eqb_spec (last_progress_percentage s) 0) as [E|E].
  - rewrite (bind_ok _ _ s tt s) by (apply file_progress_same; congruence).
    rewrite (bind_ok _ _ s tt s) by (apply file_progress_same; congruence).
    erewrite bind_ok by (apply file_progress_new; simpl; lia).
    erewrite bind_ok by (apply file_progress_same; simpl; lia).
    rewrite file_progress_new by (simpl; lia).
    simpl. rewrite H3, H5. repeat apply conj; try reflexivity.
    now rewrite <- app_assoc.
  - erewrite bind_ok by (apply file_progress_new; simpl; lia).
    erewrite bind_ok by (apply file_progress_same; simpl; lia).
    erewrite bind_ok by (apply file_progress_new; simpl; lia).
    erewrite bind_ok by (apply file_progress_same; simpl; lia).
    rewrite file_progress_new by (simpl; lia).
    simpl. rewrite H5. repeat apply conj; try reflexivity.
    now rewrite <- !app_assoc.
Qed.

Lemma progress_dedup_witness :
  let r := (file_progress 1 10000 (percentage_of 1 10000);;
            file_progress 2 10000 (percentage_of 2 10000);;
            file_progress 100 10000 (percentage_of 100 10000);;
            file_progress 101 10000 (percentage_of 101 10000);;
            file_progress 200 10000 (percentage_of 200 10000))
             (set_last_progress_percentage 1000 (fresh [])) in
  r = Ok tt (state_of r) /\
  events (state_of r) =
    events (set_last_progress_percentage 1000 (fresh [])) ++
    (if last_progress_percentage (set_last_progress_percentage 1000 (fresh [])) =? 0
     then [] else [FileProgress 1 10000 (percentage_of 1 10000)]) ++
    [FileProgress 100 10000 (percentage_of 100 10000);
     FileProgress 200 10000 (percentage_of 200 10000)] /\
  last_progress_percentage (state_of r) = 20.
Proof.
  apply (progress_dedup (set_last_progress_percentage 1000 (fresh []))
           1 2 100 101 200 10000 10000 10000 10000 10000);
    vm_compute; reflexivity.
Defined.

(** C2 fails as stated: on a fresh call the offsets 1, 2, 100, 101 and 200
    of a 10000-byte file give the rounded percentages 0.0, 0.0, 1.0, 1.0 and
    2.0, and two progress events are emitted, not three: the recorded
    percentage starts at 0, which the first report equals. *)
Lemma progress_on_fresh_call_two_events :
  long_file_reads = Ok [1; 2; 100; 101; 200] (state_of long_file_reads) /\
  map (fun off => round1 (percentage_of off 10000)) [1; 2; 100; 101; 200] =
    [0; 0; 10; 10; 20] /\
  filter is_file_progress (events (state_of long_file_reads)) =
    [FileProgress 100 10000 (percentage_of 100 10000);
     FileProgress 200 10000 (percentage_of 200 10000)] /\
  count_file_progress (state_of long_file_reads) = 2%nat.
Proof. repeat apply conj; vm_compute; reflexivity. Qed.

(** ** Advancing past an exhausted source *)

Lemma read_frame_plain s f o n :
  py_index (active_files s) (current_file_index s) = Some f ->
  current_file_index s < Z.of_nat (length (active_files s)) ->
  force_seek s = false ->
  heap s !! f = Some o -> f_closed o = false -> readable_mode o = true ->
  _read_frame n s = after_read f n (frame_of o n) (after_file_read f o n s).
Proof.
  intros Hf Hi Hs Hh Hc Hr.
  rewrite (read_frame_head s f n Hf Hi), Hs.
  rewrite (bind_ok (ret tt) _ _ tt (set_current_file (Some f) s) eq_refl).
  rewrite (bind_ok _ _ _ _ _ (file_read_ok (set_current_file (Some f) s) f o n Hh Hc Hr)).
  reflexivity.
Qed.

Lemma read_frame_unreadable s f o n :
  py_index (active_files s) (current_file_index s) = Some f ->
  current_file_index s < Z.of_nat (length (active_files s)) ->
  force_seek s = false ->
  heap s !! f = Some o -> f_closed o = false -> readable_mode o = false ->
  _read_frame n s =
    Raise UnsupportedOperation (log_io (IoRead f n) (set_current_file (Some f) s)).
Proof.
  intros Hf Hi Hs Hh Hc Hr.
  rewrite (read_frame_head s f n Hf Hi), Hs.
  rewrite (bind_ok (ret tt) _ _ tt (set_current_file (Some f) s) eq_refl).
  apply bind_raise.
  apply (file_read_unreadable (set_current_file (Some f) s) f o n Hh Hc Hr).
Qed.

(** The playback branch of [next_file]: the file at the cursor is closed,
    the head is popped, and the deque is indexed again at the cursor. *)
Lemma next_file_playback s p o :
  input_files s <> [] ->
  py_index (input_files s) (current_file_index s) = Some p ->
  heap s !! p = Some o ->
  let s1 := set_input_files (tail (input_files s))
              (log_io (IoClose p) (set_heap (<[p := closed_file o]> (heap s)) s)) in
  next_file s =
    match py_index (tail (input_files s)) (current_file_index s) with
    | Some cur => Ok None (set_current_file (Some cur) s1)
    | None => Raise IndexError s1
    end.
Proof.
  intros Hne Hp Ho. unfold next_file, getitem, file_close, deref, store. run.
  destruct (input_files s) as [|h q] eqn:E; [contradiction|].
  rewrite Hp. simpl. rewrite Ho. simpl. rewrite E. simpl.
  destruct (py_index q (current_file_index s)); reflexivity.
Qed.

(** C8 (as amended). With both queues non-empty the read goes to the hold
    queue: its file call is a read of the hold file at the cursor, and when
    that file can be read the frame comes from it.  [next_file] takes its
    playback branch: when the cursor indexes the playback queue, the
    playback file at the cursor is closed and the head of the playback queue
    is removed; the hold queue, the cursor and the offset stay as they are,
    so nothing is rewound.  When the cursor does not index the playback
    queue, [next_file] raises [IndexError] and changes nothing. *)
Theorem advance_with_both_queues (s : state) :
  hold_files s <> [] -> input_files s <> [] ->
  (forall f o n,
     py_index (hold_files s) (current_file_index s) = Some f ->
     current_file_index s < Z.of_nat (length (hold_files s)) ->
     force_seek s = false -> heap s !! f = Some o -> f_closed o = false ->
     (exists tl, io_log (state_of (_read_frame n s)) = io_log s ++ IoRead f n :: tl) /\
     (readable_mode o = true ->
      _read_frame n s =
        after_read f n (take n (drop (f_pos o) (f_data o))) (after_file_read f o n s))) /\
  (forall p o,
     py_index (input_files s) (current_file_index s) = Some p ->
     heap s !! p = Some o ->
     let s' := state_of (next_file s) in
     heap s' = <[p := closed_file o]> (heap s) /\
     input_files s' = tail (input_files s) /\
     hold_files s' = hold_files s /\
     current_file_index s' = current_file_index s /\
     current_bytes_offset s' = current_bytes_offset s /\
     io_log s' = io_log s ++ [IoClose p]) /\
  (py_index (input_files s) (current_file_index s) = None ->
   next_file s = Raise IndexError s).
Proof.
  intros Hh Hi.
  assert (Ha : active_files s = hold_files s).
  { unfold active_files. destruct (hold_files s); [contradiction | reflexivity]. }
  repeat apply conj.
  - intros f o n Hf Hlt Hs Ho Hc. rewrite <- Ha in Hf, Hlt.
    destruct (readable_mode o) eqn:Hr.
    + rewrite (read_frame_plain s f o n Hf Hlt Hs Ho Hc Hr).
      destruct (stable_after_read f n (frame_of o n) (after_file_read f o n s))
        as [_ [tl Htl]].
      split; [|reflexivity].
      exists tl. rewrite Htl. simpl. now rewrite <- app_assoc.
    + rewrite (read_frame_unreadable s f o n Hf Hlt Hs Ho Hc Hr).
      split; [exists []; reflexivity | discriminate].
  - intros p o Hp Ho. cbv zeta.
    rewrite (next_file_playback s p o Hi Hp Ho).
    destruct (py_index (tail (input_files s)) (current_file_index s));
      simpl; repeat apply conj; reflexivity.
  - intros Hn. unfold next_file, getitem. run.
    destruct (input_files s) as [|h q] eqn:E; [contradiction|].
    now rewrite Hn.
Qed.

Lemma advance_with_both_queues_witness :
  (forall f o n,
     py_index (hold_files both_queues) (current_file_index both_queues) = Some f ->
     current_file_index both_queues < Z.of_nat (length (hold_files both_queues)) ->
     force_seek both_queues = false -> heap both_queues !! f = Some o ->
     f_closed o = false ->
     (exists tl, io_log (state_of (_read_frame n both_queues)) =
                 io_log both_queues ++ IoRead f n :: tl) /\
     (readable_mode o = true ->
      _read_frame n both_queues =
        after_read f n (take n (drop (f_pos o) (f_data o)))
          (after_file_read f o n both_queues))) /\
  (forall p o,
     py_index (input_files both_queues) (current_file_index both_queues) = Some p ->
     heap both_queues !! p = Some o ->
     let s' := state_of (next_file both_queues) in
     heap s' = <[p := closed_file o]> (heap both_queues) /\
     input_files s' = tail (input_files both_queues) /\
     hold_files s' = hold_files both_queues /\
     current_file_index s' = current_file_index both_queues /\
     current_bytes_offset s' = current_bytes_offset both_queues /\
     io_log s' = io_log both_queues ++ [IoClose p]) /\
  (py_index (input_files both_queues) (current_file_index both_queues) = None ->
   next_file both_queues = Raise IndexError both_queues).
Proof. apply (advance_with_both_queues both_queues); discriminate. Defined.

(** C8 fails as stated: with two files on hold, the cursor on the second
    and one file queued for playback, both queues are non-empty, yet the
    advance raises [IndexError] without closing or removing anything. *)
Lemma advance_with_short_playback_queue :
  hold_files hold_two_play_one = [0%nat; 1%nat] /\
  input_files hold_two_play_one = [2%nat] /\
  current_file_index hold_two_play_one = 1 /\
  next_file hold_two_play_one = Raise IndexError hold_two_play_one.
Proof. repeat apply conj; vm_compute; reflexivity. Qed.

(** C9 (as amended). With the playback queue active, the cursor on a later
    entry and the head a different file object from the one at the cursor,
    the advance closes the file at the cursor and pops the head: the closed
    file stays in the queue, one position earlier, and the file object that
    was at the head is dropped from the head as it was, not closed by this
    step. *)
Theorem advance_playback_at_later_index (s : state) (h p : nat) (oh o : pyfile) :
  hold_files s = [] ->
  0 < current_file_index s ->
  input_files s !! 0%nat = Some h ->
  input_files s !! Z.to_nat (current_file_index s) = Some p ->
  h <> p ->
  heap s !! h = Some oh -> heap s !! p = Some o ->
  let s' := state_of (next_file s) in
  active_files s = input_files s /\
  input_files s' = tail (input_files s) /\
  input_files s' !! (Z.to_nat (current_file_index s) - 1)%nat = Some p /\
  heap s' !! p = Some (closed_file o) /\
  f_closed (closed_file o) = true /\
  heap s' !! h = Some oh /\
  io_log s' = io_log s ++ [IoClose p].
Proof.
  intros Hh Hi H0 Hp Hne Hoh Ho s'.
  assert (Hin : input_files s <> []).
  { intros E. rewrite E in H0. discriminate. }
  assert (Hpy : py_index (input_files s) (current_file_index s) = Some p).
  { rewrite py_index_nonneg by lia. exact Hp. }
  assert (Hlt : (p < length (heap s))%nat) by (eapply lookup_lt_Some; eauto).
  assert (Hs' : heap s' = <[p := closed_file o]> (heap s) /\
                input_files s' = tail (input_files s) /\
                io_log s' = io_log s ++ [IoClose p]).
  { subst s'. rewrite (next_file_playback s p o Hin Hpy Ho).
    destruct (py_index (tail (input_files s)) (current_file_index s));
      simpl; repeat apply conj; reflexivity. }
  destruct Hs' as (Eh & Ei & El).
  repeat apply conj.
  - unfold active_files. now rewrite Hh.
  - exact Ei.
  - rewrite Ei. destruct (input_files s) as [|x q]; [discriminate|]. simpl.
    destruct (Z.to_nat (current_file_index s)) as [|k] eqn:Ek; [lia|].
    simpl in Hp. replace (S k - 1)%nat with k by lia. exact Hp.
  - rewrite Eh. now apply list_lookup_insert_eq.
  - reflexivity.
  - rewrite Eh. rewrite list_lookup_insert_ne by auto. exact Hoh.
  - exact El.
Qed.

Lemma advance_playback_at_later_index_witness :
  let s' := state_of (next_file seeked_second) in
  active_files seeked_second = input_files seeked_second /\
  input_files s' = tail (input_files seeked_second) /\
  input_files s' !! (Z.to_nat (current_file_index seeked_second) - 1)%nat = Some 1%nat /\
  heap s' !! 1%nat = Some (closed_file (opened "b.raw")) /\
  f_closed (closed_file (opened "b.raw")) = true /\
  heap s' !! 0%nat = Some (opened "a.raw") /\
  io_log s' = io_log seeked_second ++ [IoClose 1].
Proof.
  apply (advance_playback_at_later_index seeked_second 0%nat 1%nat
           (opened "a.raw") (opened "b.raw"));
    first [reflexivity | discriminate | vm_compute; reflexivity].
Defined.

(** C9 fails as stated: when one file object is queued twice and the cursor
    is on the second entry, the file at the cursor is the head itself, and
    exhausting it closes the object that the advance drops from the head. *)
Lemma advance_closes_shared_head :
  input_files same_twice = [0%nat; 0%nat] /\ hold_files same_twice = [] /\
  current_file_index same_twice = 1 /\
  f_closed <$> heap same_twice !! 0%nat = Some false /\
  let s' := state_of (_read_frame 100 same_twice) in
  io_log s' = [IoSeek 0 0; IoRead 0 100; IoClose 0] /\
  input_files s' = [0%nat] /\
  f_closed <$> heap s' !! 0%nat = Some true.
Proof. repeat apply conj; vm_compute; reflexivity. Qed.

(** ** The hold queue as a cycle *)

Lemma rewinds_only_refl h : rewinds_only h h.
Proof. split; [reflexivity | intros fid o' H; exists o'; auto]. Qed.

Lemma rewinds_only_trans h1 h2 h3 :
  rewinds_only h1 h2 -> rewinds_only h2 h3 -> rewinds_only h1 h3.
Proof.
  intros [L1 R1] [L2 R2]. split; [congruence|].
  intros fid o3 H3. destruct (R2 _ _ H3) as (o2 & H2 & E2).
  destruct (R1 _ _ H2) as (o1 & H1 & E1). exists o1. split; [exact H1|].
  destruct E2 as [->| ->], E1 as [->| ->]; auto.
Qed.

Lemma rewinds_only_insert h f o :
  h !! f = Some o -> rewinds_only h (<[f := rewound o]> h).
Proof.
  intros H. split; [apply length_insert|].
  intros fid o' H'. destruct (decide (fid = f)) as [->|Hne].
  - rewrite list_lookup_insert_eq in H' by (eapply lookup_lt_Some; eauto).
    inversion H'. eauto.
  - rewrite list_lookup_insert_ne in H' by auto. eauto.
Qed.

Lemma rewinds_only_pos0 h h' f o :
  rewinds_only h h' -> h !! f = Some o -> f_pos o = 0%nat ->
  exists o', h' !! f = Some o' /\ f_pos o' = 0%nat.
Proof.
  intros [L R] H P.
  destruct (lookup_lt_is_Some_2 h' f) as [o' H'].
  { rewrite L. eapply lookup_lt_Some; eauto. }
  exists o'. split; [exact H'|].
  destruct (R _ _ H') as (o0 & H0 & E). rewrite H in H0. inversion H0; subst o0.
  destruct E as [->| ->]; auto.
Qed.

Lemma rewinds_only_open h h' f o :
  rewinds_only h h' -> h !! f = Some o -> f_closed o = false ->
  exists o', h' !! f = Some o' /\ f_closed o' = false.
Proof.
  intros [L R] H P.
  destruct (lookup_lt_is_Some_2 h' f) as [o' H'].
  { rewrite L. eapply lookup_lt_Some; eauto. }
  exists o'. split; [exact H'|].
  destruct (R _ _ H') as (o0 & H0 & E). rewrite H in H0. inversion H0; subst o0.
  destruct E as [->| ->]; auto.
Qed.

Lemma match_nonempty {A B} (l : list A) (a b : B) :
  l <> [] -> match l with [] => b | _ :: _ => a end = a.
Proof. destruct l; [contradiction | reflexivity]. Qed.

(** The hold branch of [next_file]. *)
Lemma next_file_hold s f o :
  input_files s = [] ->
  0 <= current_file_index s < Z.of_nat (length (hold_files s)) ->
  hold_files s !! Z.to_nat (current_file_index s) = Some f ->
  heap s !! f = Some o -> f_closed o = false ->
  let i' := (current_file_index s + 1) mod Z.of_nat (length (hold_files s)) in
  exists cur,
    hold_files s !! Z.to_nat i' = Some cur /\
    next_file s =
      Ok (Some cur)
         (set_current_file (Some cur)
            (set_current_file_index i'
               (set_current_bytes_offset 0
                  (log_io (IoSeek f 0)
                     (set_heap (<[f := rewound o]> (heap s)) s))))).
Proof.
  intros Hin Hr Hf Ho Hc i'.
  set (len := Z.of_nat (length (hold_files s))) in *.
  assert (Hi' : 0 <= i' < len) by (apply Z.mod_pos_bound; lia).
  assert (Hnew : (if current_file_index s + 1 <? len
                  then current_file_index s + 1 else 0) = i').
  { subst i'. destruct (Z.ltb_spec (current_file_index s + 1) len).
    - rewrite Z.mod_small by lia. reflexivity.
    - assert (current_file_index s + 1 = len) as -> by lia.
      rewrite Z.mod_same by lia. reflexivity. }
  destruct (lookup_lt_is_Some_2 (hold_files s) (Z.to_nat i')) as [cur Hcur];
    [subst len; lia|].
  exists cur. split; [exact Hcur|].
  assert (Hne : hold_files s <> []).
  { intros E. rewrite E in Hf. discriminate. }
  unfold next_file. run. rewrite Hin.
  rewrite match_nonempty by exact Hne.
  rewrite (getitem_in_range _ _ f) by (lia || assumption).
  rewrite (file_seek_ok s f o 0 Ho Hc) by (try apply seek_limit_small; lia).
  simpl. fold len. rewrite Hnew.
  rewrite (getitem_in_range _ _ cur) by (lia || assumption).
  reflexivity.
Qed.

Lemma advance_hold (j : nat) : forall s,
  input_files s = [] -> hold_open s ->
  0 <= current_file_index s < Z.of_nat (length (hold_files s)) ->
  exists s',
    advance j s = Ok tt s' /\
    hold_files s' = hold_files s /\ input_files s' = [] /\
    current_file_index s' =
      (current_file_index s + Z.of_nat j) mod Z.of_nat (length (hold_files s)) /\
    rewinds_only (heap s) (heap s') /\
    (exists tl, io_log s' = io_log s ++ tl /\ Forall is_rewind tl /\ length tl = j) /\
    (forall k f, (k < j)%nat ->
       hold_files s !! Z.to_nat ((current_file_index s + Z.of_nat k)
                                 mod Z.of_nat (length (hold_files s))) = Some f ->
       exists o', heap s' !! f = Some o' /\ f_pos o' = 0%nat).
Proof.
  induction j as [|j IH]; intros s Hin Hop Hr.
  - exists s. split; [reflexivity|]. split; [reflexivity|].
    split; [exact Hin|]. split; [|split; [|split]].
    + change (Z.of_nat 0) with 0. rewrite Z.add_0_r, Z.mod_small by lia.
      reflexivity.
    + apply rewinds_only_refl.
    + exists []. split; [now rewrite app_nil_r | split; [constructor | reflexivity]].
    + intros k f Hk. lia.
  - set (K := Z.of_nat (length (hold_files s))) in *.
    destruct (lookup_lt_is_Some_2 (hold_files s) (Z.to_nat (current_file_index s)))
      as [f Hf]; [subst K; lia|].
    destruct (Hop f) as (o & Ho & Hc); [eapply list_elem_of_lookup_2; eauto|].
    destruct (next_file_hold s f o Hin Hr Hf Ho Hc) as (cur & Hcur & Hnext).
    fold K in Hcur, Hnext.
    set (s1 := set_current_file (Some cur)
                 (set_current_file_index ((current_file_index s + 1) mod K)
                    (set_current_bytes_offset 0
                       (log_io (IoSeek f 0)
                          (set_heap (<[f := rewound o]> (heap s)) s))))) in *.
    assert (Hrw : rewinds_only (heap s) (heap s1))
      by (apply rewinds_only_insert; exact Ho).
    assert (Hop1 : hold_open s1).
    { intros g Hg. destruct (Hop g Hg) as (og & Hog & Hcg).
      eapply rewinds_only_open; eauto. }
    assert (Hr1 : 0 <= current_file_index s1 < Z.of_nat (length (hold_files s1))).
    { simpl. apply Z.mod_pos_bound. lia. }
    destruct (IH s1 Hin Hop1 Hr1)
      as (s' & Hadv & Hh & Hi & Hidx & Hrw' & (tl & Hlog & Htl & Hlen) & Hvis).
    simpl in Hh, Hidx, Hlog, Hvis. fold K in Hidx, Hvis.
    exists s'. split; [|split; [|split; [|split; [|split; [|split]]]]].
    + simpl. rewrite (bind_ok _ _ s (Some cur) s1) by exact Hnext. exact Hadv.
    + exact Hh.
    + exact Hi.
    + rewrite Hidx, Z.add_mod_idemp_l by lia. f_equal. lia.
    + eapply rewinds_only_trans; eauto.
    + exists (IoSeek f 0 :: tl). split.
      * rewrite Hlog, <- app_assoc. reflexivity.
      * split; [constructor; [now exists f | exact Htl] | simpl; now rewrite Hlen].
    + intros k g Hk Hg. destruct k as [|k].
      * change (Z.of_nat 0) with 0 in Hg.
        rewrite Z.add_0_r, Z.mod_small in Hg by lia.
        rewrite Hf in Hg. inversion Hg; subst g.
        apply (rewinds_only_pos0 (heap s1) (heap s') f (rewound o) Hrw');
          [|reflexivity].
        simpl. apply list_lookup_insert_eq. eapply lookup_lt_Some; eauto.
      * apply (Hvis k g); [lia|].
        rewrite Z.add_mod_idemp_l by lia.
        replace (current_file_index s + 1 + Z.of_nat k)
          with (current_file_index s + Z.of_nat (S k)) by lia.
        exact Hg.
Qed.

(** The advance alone: with the playback queue empty, [K] open files on
    hold and the cursor inside the hold queue, [K] calls of [next_file]
    succeed and bring the cursor back to where it was; the queues are
    unchanged, every file on hold ends at position 0 and still open, no file
    object is added, dropped or closed, and the only file operations are
    [K] seeks to 0. *)
Theorem hold_queue_cycle (s : state) :
  input_files s = [] -> hold_open s ->
  0 <= current_file_index s < Z.of_nat (length (hold_files s)) ->
  exists s',
    advance (length (hold_files s)) s = Ok tt s' /\
    current_file_index s' = current_file_index s /\
    hold_files s' = hold_files s /\ input_files s' = [] /\
    length (heap s') = length (heap s) /\
    (forall fid o', heap s' !! fid = Some o' ->
       exists o, heap s !! fid = Some o /\ f_closed o' = f_closed o /\
                 f_name o' = f_name o /\ f_data o' = f_data o) /\
    (forall f, f ∈ hold_files s ->
       exists o', heap s' !! f = Some o' /\ f_pos o' = 0%nat /\ f_closed o' = false) /\
    (exists tl, io_log s' = io_log s ++ tl /\ Forall is_rewind tl /\
                length tl = length (hold_files s)).
Proof.
  intros Hin Hop Hr.
  destruct (advance_hold (length (hold_files s)) s Hin Hop Hr)
    as (s' & Hadv & Hh & Hi & Hidx & Hrw & Hlog & Hvis).
  set (K := Z.of_nat (length (hold_files s))) in *.
  exists s'. split; [exact Hadv|]. split; [|split; [exact Hh|split; [exact Hi|]]].
  { rewrite Hidx. replace (current_file_index s + K)
      with (current_file_index s + 1 * K) by lia.
    rewrite Z.mod_add, Z.mod_small by lia. reflexivity. }
  split; [apply Hrw|]. split; [|split; [|exact Hlog]].
  - intros fid o' H'. destruct Hrw as [_ R].
    destruct (R _ _ H') as (o & Ho & [->| ->]); exists o; auto.
  - intros f Hf.
    destruct (proj1 (list_elem_of_lookup _ _) Hf) as [m Hm].
    assert (Hmlt : (m < length (hold_files s))%nat) by (eapply lookup_lt_Some; eauto).
    set (k := (Z.of_nat m - current_file_index s) mod K).
    assert (Hk : 0 <= k < K) by (apply Z.mod_pos_bound; lia).
    destruct (Hvis (Z.to_nat k) f) as (o' & Ho' & Hp); [lia| |].
    + rewrite Z2Nat.id by lia. subst k.
      rewrite Z.add_mod_idemp_r by lia.
      replace (current_file_index s + (Z.of_nat m - current_file_index s))
        with (Z.of_nat m) by lia.
      rewrite Z.mod_small by lia. rewrite Nat2Z.id. exact Hm.
    + exists o'. split; [exact Ho'|]. split; [exact Hp|].
      destruct (Hop f Hf) as (o & Ho & Hc).
      destruct (rewinds_only_open _ _ _ _ Hrw Ho Hc) as (o2 & Ho2 & Hc2).
      congruence.
Qed.

Lemma hold_queue_cycle_witness :
  exists s',
    advance (length (hold_files hold_three)) hold_three = Ok tt s' /\
    current_file_index s' = current_file_index hold_three /\
    hold_files s' = hold_files hold_three /\ input_files s' = [] /\
    length (heap s') = length (heap hold_three) /\
    (forall fid o', heap s' !! fid = Some o' ->
       exists o, heap hold_three !! fid = Some o /\ f_closed o' = f_closed o /\
                 f_name o' = f_name o /\ f_data o' = f_data o) /\
    (forall f, f ∈ hold_files hold_three ->
       exists o', heap s' !! f = Some o' /\ f_pos o' = 0%nat /\ f_closed o' = false) /\
    (exists tl, io_log s' = io_log hold_three ++ tl /\ Forall is_rewind tl /\
                length tl = length (hold_files hold_three)).
Proof.
  apply (hold_queue_cycle hold_three).
  - reflexivity.
  - intros f Hf. change (hold_files hold_three) with [0%nat; 1%nat; 2%nat] in Hf.
    repeat (apply elem_of_cons in Hf; destruct Hf as [->|Hf]);
      [eexists; split; reflexivity .. | inversion Hf].
  - split; [intros H; vm_compute in H; discriminate H | vm_compute; reflexivity].
Defined.

(** * Further properties of the mixin *)

(** ** The bookkeeping of a read *)

Lemma after_read_bookkept s f o sz n frame :
  heap s !! f = Some o -> f_closed o = false ->
  resolved_size s o = Some sz -> sz <> 0 ->
  percentage_overflows (Z.of_nat (f_pos o)) sz = false ->
  after_read f n frame s =
    ((if (length frame =? n)%nat then ret tt else next_file;; ret tt);;
     ret (Some frame)) (bookkept f o sz s).
Proof.
  intros Ho Hc Hsz Hnz Hov.
  unfold after_read, file_tell, deref, getsize, store, file_changed, file_progress.
  unfold bookkept, noted_progress, noted_name, noted_size, noted_offset.
  unfold resolved_size in Hsz. run. simpl. rewrite Ho, Hc. simpl. rewrite Ho.
  destruct (f_size o) as [sz'|] eqn:Es.
  - inversion Hsz; subst sz'. simpl.
    destruct (name_is (last_file_name s) (f_name o)); simpl;
      destruct (Z.eqb_spec sz 0); try contradiction; simpl; rewrite Hov;
      destruct (_ =? round1 _); reflexivity.
  - simpl. destruct (lookup_disk (disk s) (f_name o)) as [c|]; [|discriminate].
    inversion Hsz; subst sz. simpl. unfold with_size. rewrite Hc.
    destruct (name_is (last_file_name s) (f_name o)); simpl;
      destruct (Z.eqb_spec (Z.of_nat (length c)) 0); try contradiction; simpl;
      rewrite Hov; destruct (_ =? round1 _); reflexivity.
Qed.

(** Quotients of offsets and sizes that fit a float. *)
Lemma percentage_fits_le off off' sz :
  0 <= off' <= off -> percentage_overflows off sz = false ->
  percentage_overflows off' sz = false.
Proof.
  unfold percentage_overflows. intros H E.
  apply Z.leb_gt in E. apply Z.leb_gt. lia.
Qed.

Lemma percentage_fits_ratio off sz :
  0 <= off <= Z.abs sz -> sz <> 0 -> percentage_overflows off sz = false.
Proof.
  unfold percentage_overflows. intros H Hnz. apply Z.leb_gt.
  assert (T : 100 < 2 ^ 1024 - 2 ^ 970) by (vm_compute; reflexivity).
  remember (2 ^ 1024 - 2 ^ 970) as t. nia.
Qed.

Lemma after_read_zero_size s f o n frame :
  heap s !! f = Some o -> f_closed o = false ->
  resolved_size s o = Some 0 ->
  after_read f n frame s =
    Raise ZeroDivisionError (noted_name o (noted_size f o 0 (noted_offset o s))).
Proof.
  intros Ho Hc Hsz.
  unfold after_read, file_tell, deref, getsize, store, file_changed, file_progress.
  unfold noted_name, noted_size, noted_offset.
  unfold resolved_size in Hsz. run. simpl. rewrite Ho, Hc. simpl. rewrite Ho.
  destruct (f_size o) as [sz'|] eqn:Es.
  - inversion Hsz; subst sz'. simpl.
    destruct (name_is (last_file_name s) (f_name o)); reflexivity.
  - simpl. destruct (lookup_disk (disk s) (f_name o)) as [c|]; [|discriminate].
    inversion Hsz as [Hz]. simpl. rewrite Hz. unfold with_size. rewrite Hc.
    destruct (name_is (last_file_name s) (f_name o)); reflexivity.
Qed.

Lemma bookkept_fields f o sz s :
  let s' := bookkept f o sz s in
  input_files s' = input_files s /\ hold_files s' = hold_files s /\
  current_file_index s' = current_file_index s /\
  current_file s' = current_file s /\ force_seek s' = force_seek s /\
  current_bytes_offset s' = Z.of_nat (f_pos o) /\
  last_file_name s' = Some (f_name o) /\
  io_log s' = io_log s /\ disk s' = disk s /\ output_file s' = output_file s /\
  stdout s' = stdout s.
Proof.
  unfold bookkept, noted_progress, noted_name, noted_size, noted_offset.
  destruct (f_size o); simpl.
  all: destruct (last_file_name s) as [m|] eqn:El; simpl;
    [destruct (String.eqb_spec m (f_name o)) as [->|]|]; simpl.
  all: match goal with |- context [if ?b then _ else _] => destruct b end; simpl.
  all: repeat apply conj; first [reflexivity | exact El].
Qed.

Lemma bookkept_heap f o sz s :
  heap s !! f = Some o -> resolved_size s o = Some sz ->
  heap (bookkept f o sz s) !! f = Some (with_size o sz) /\
  length (heap (bookkept f o sz s)) = length (heap s) /\
  forall g, g <> f -> heap (bookkept f o sz s) !! g = heap s !! g.
Proof.
  intros Ho Hsz.
  assert (Hh : heap (bookkept f o sz s) = heap (noted_size f o sz s)).
  { unfold bookkept, noted_progress, noted_name, noted_offset, noted_size.
    destruct (f_size o); simpl.
    all: match goal with |- context [if name_is ?a ?b then _ else _] =>
           destruct (name_is a b) end; simpl.
    all: match goal with |- context [if ?b then _ else _] => destruct b end;
      reflexivity. }
  rewrite Hh. unfold noted_size, resolved_size in *.
  destruct (f_size o) as [sz'|] eqn:Es.
  - inversion Hsz; subst sz'. repeat apply conj; auto.
    rewrite Ho. f_equal. unfold with_size. rewrite <- Es. now destruct o.
  - simpl. repeat apply conj.
    + apply list_lookup_insert_eq. eapply lookup_lt_Some; eauto.
    + apply length_insert.
    + intros g Hg. apply list_lookup_insert_ne. auto.
Qed.

(** ** Reads inside a source *)

(** X1. A read that the current source can serve in full (no seek pending,
    source open and readable, size known and not zero, percentage within
    the floats) returns exactly the next [n] bytes, moves the source and the
    recorded offset forward by [n], caches the size on the file object and
    leaves the queues and the cursor index alone: an exact fit at the end
    of the source does not advance. *)
Theorem read_frame_full (s : state) (f : nat) (o : pyfile) (sz : Z) (n : nat) :
  py_index (active_files s) (current_file_index s) = Some f ->
  current_file_index s < Z.of_nat (length (active_files s)) ->
  force_seek s = false ->
  heap s !! f = Some o -> f_closed o = false -> readable_mode o = true ->
  resolved_size s o = Some sz -> sz <> 0 ->
  (f_pos o + n <= length (f_data o))%nat ->
  percentage_overflows (Z.of_nat (f_pos o + n)) sz = false ->
  let s' := bookkept f (advanced o n) sz (after_file_read f o n s) in
  _read_frame n s = Ok (Some (frame_of o n)) s' /\
  length (frame_of o n) = n /\
  input_files s' = input_files s /\ hold_files s' = hold_files s /\
  current_file_index s' = current_file_index s /\
  current_file s' = Some f /\
  current_bytes_offset s' = Z.of_nat (f_pos o + n) /\
  heap s' !! f = Some (with_size (advanced o n) sz) /\
  io_log s' = io_log s ++ [IoRead f n].
Proof.
  intros Hf Hi Hs Ho Hc Hrd Hsz Hnz Hn Hov s'.
  assert (Hlen : length (frame_of o n) = n).
  { unfold frame_of. rewrite length_take, length_drop. lia. }
  assert (Hlt : (f < length (heap s))%nat) by (eapply lookup_lt_Some; eauto).
  assert (Ho3 : heap (after_file_read f o n s) !! f = Some (advanced o n)).
  { unfold after_file_read. simpl. rewrite Hlen.
    now apply list_lookup_insert_eq. }
  assert (Hsz3 : resolved_size (after_file_read f o n s) (advanced o n) = Some sz)
    by exact Hsz.
  destruct (bookkept_fields f (advanced o n) sz (after_file_read f o n s))
    as (B1 & B2 & B3 & B4 & B5 & B6 & B7 & B8 & _).
  destruct (bookkept_heap f (advanced o n) sz _ Ho3 Hsz3) as (H1 & _).
  split; [|repeat apply conj; assumption].
  rewrite (read_frame_plain s f o n Hf Hi Hs Ho Hc Hrd).
  rewrite (after_read_bookkept _ f (advanced o (length (frame_of o n))) sz);
    try assumption; rewrite ?Hlen; try assumption.
  run. rewrite Nat.eqb_refl. reflexivity.
Qed.

Lemma read_frame_full_witness :
  let s' := bookkept 0 (advanced (opened "a.raw") 4) 10
              (after_file_read 0 (opened "a.raw") 4 one_file_queued) in
  _read_frame 4 one_file_queued = Ok (Some (frame_of (opened "a.raw") 4)) s' /\
  length (frame_of (opened "a.raw") 4) = 4%nat /\
  input_files s' = input_files one_file_queued /\
  hold_files s' = hold_files one_file_queued /\
  current_file_index s' = current_file_index one_file_queued /\
  current_file s' = Some 0%nat /\
  current_bytes_offset s' = Z.of_nat (f_pos (opened "a.raw") + 4) /\
  heap s' !! 0%nat = Some (with_size (advanced (opened "a.raw") 4) 10) /\
  io_log s' = io_log one_file_queued ++ [IoRead 0 4].
Proof.
  apply (read_frame_full one_file_queued 0%nat (opened "a.raw") 10 4%nat);
    first [reflexivity | discriminate | vm_compute; lia].
Defined.

Lemma concat_chunks (ns : list nat) : forall data : list byte,
  (sum_list ns <= length data)%nat ->
  concat (chunks data ns) = take (sum_list ns) data /\
  length <$> chunks data ns = ns.
Proof.
  induction ns as [|n ns IH]; intros data H.
  - split; [simpl; now rewrite take_0 | reflexivity].
  - simpl in H.
    destruct (IH (drop n data)) as [E1 E2]; [rewrite length_drop; lia|].
    change (chunks data (n :: ns)) with (take n data :: chunks (drop n data) ns).
    split.
    + rewrite concat_cons, E1. simpl. rewrite <- take_take_drop. reflexivity.
    + rewrite fmap_cons, E2, length_take. f_equal. lia.
Qed.

(** X2. Successive reads that stay inside the current source (open and
    readable, size known and not zero, percentages within the floats)
    return consecutive pieces of it, of exactly the requested lengths; put
    end to end they are the bytes between the position before the first
    read and the position after the last one. *)
Theorem read_frames_tile (ns : list nat) : forall (s : state) (f : nat) (o : pyfile) (sz : Z),
  py_index (active_files s) (current_file_index s) = Some f ->
  current_file_index s < Z.of_nat (length (active_files s)) ->
  force_seek s = false ->
  heap s !! f = Some o -> f_closed o = false -> readable_mode o = true ->
  resolved_size s o = Some sz -> sz <> 0 ->
  (f_pos o + sum_list ns <= length (f_data o))%nat ->
  percentage_overflows (Z.of_nat (f_pos o + sum_list ns)) sz = false ->
  exists s' o',
    read_frames ns s = Ok (Some <$> chunks (drop (f_pos o) (f_data o)) ns) s' /\
    concat (chunks (drop (f_pos o) (f_data o)) ns) =
      take (sum_list ns) (drop (f_pos o) (f_data o)) /\
    length <$> chunks (drop (f_pos o) (f_data o)) ns = ns /\
    input_files s' = input_files s /\ hold_files s' = hold_files s /\
    current_file_index s' = current_file_index s /\
    heap s' !! f = Some o' /\ f_pos o' = (f_pos o + sum_list ns)%nat /\
    f_data o' = f_data o /\ f_closed o' = false.
Proof.
  induction ns as [|n ns IH]; intros s f o sz Hf Hi Hs Ho Hc Hrd Hsz Hnz Hn Hov.
  - exists s, o. simpl. rewrite Nat.add_0_r. repeat apply conj; auto.
  - simpl in Hn, Hov.
    assert (Hov1 : percentage_overflows (Z.of_nat (f_pos o + n)) sz = false).
    { eapply percentage_fits_le; [|exact Hov]. lia. }
    destruct (read_frame_full s f o sz n Hf Hi Hs Ho Hc Hrd Hsz Hnz) as
      (Hr & Hl & Hin & Hh & Hidx & _ & _ & Ho1 & _); [lia|exact Hov1|].
    set (s1 := bookkept f (advanced o n) sz (after_file_read f o n s)) in *.
    assert (Ha : active_files s1 = active_files s).
    { unfold active_files. now rewrite Hin, Hh. }
    assert (Hs1 : force_seek s1 = false).
    { destruct (bookkept_fields f (advanced o n) sz (after_file_read f o n s))
        as (_ & _ & _ & _ & B5 & _). subst s1. rewrite B5. exact Hs. }
    destruct (IH s1 f (with_size (advanced o n) sz) sz)
      as (s' & o' & Hrs & _ & _ & Hin' & Hh' & Hidx' & Ho' & Hp' & Hd' & Hc');
      try assumption; rewrite ?Ha, ?Hidx; try assumption; try reflexivity.
    { simpl. lia. }
    { simpl. rewrite <- Hov. f_equal. lia. }
    simpl in Hrs, Hp', Hd'. rewrite <- drop_drop in Hrs.
    destruct (concat_chunks (n :: ns) (drop (f_pos o) (f_data o))) as [E1 E2].
    { rewrite length_drop. simpl. lia. }
    exists s', o'. split; [|repeat apply conj; try congruence; try assumption].
    + simpl. rewrite (bind_ok _ _ s _ s1 Hr).
      rewrite (bind_ok _ _ s1 _ s' Hrs). reflexivity.
    + rewrite Hp'. simpl. lia.
Qed.

Lemma read_frames_tile_witness :
  exists s' o',
    read_frames [4; 4; 2]%nat one_file_queued =
      Ok (Some <$> chunks (drop (f_pos (opened "a.raw")) (f_data (opened "a.raw")))
                     [4; 4; 2]%nat) s' /\
    concat (chunks (drop (f_pos (opened "a.raw")) (f_data (opened "a.raw")))
              [4; 4; 2]%nat) =
      take (sum_list [4; 4; 2]%nat)
           (drop (f_pos (opened "a.raw")) (f_data (opened "a.raw"))) /\
    length <$> chunks (drop (f_pos (opened "a.raw")) (f_data (opened "a.raw")))
                 [4; 4; 2]%nat = [4; 4; 2]%nat /\
    input_files s' = input_files one_file_queued /\
    hold_files s' = hold_files one_file_queued /\
    current_file_index s' = current_file_index one_file_queued /\
    heap s' !! 0%nat = Some o' /\
    f_pos o' = (f_pos (opened "a.raw") + sum_list [4; 4; 2]%nat)%nat /\
    f_data o' = f_data (opened "a.raw") /\ f_closed o' = false.
Proof.
  apply (read_frames_tile [4; 4; 2]%nat one_file_queued 0%nat (opened "a.raw") 10);
    first [reflexivity | discriminate | vm_compute; lia].
Defined.

Lemma bookkept_events f o sz s :
  events (bookkept f o sz s) =
    events s ++
    (if name_is (last_file_name s) (f_name o) then []
     else [FileChanged (current_file s) (current_file_index s)]) ++
    (if last_progress_percentage s =? round1 (percentage_of (Z.of_nat (f_pos o)) sz)
     then []
     else [FileProgress (Z.of_nat (f_pos o)) sz (percentage_of (Z.of_nat (f_pos o)) sz)]).
Proof.
  unfold bookkept, noted_progress, noted_name, noted_size, noted_offset.
  destruct (f_size o); simpl.
  all: destruct (name_is (last_file_name s) (f_name o)); simpl.
  all: match goal with |- context [if ?b then _ else _] => destruct b end; simpl.
  all: rewrite ?app_nil_r, <- ?app_assoc; reflexivity.
Qed.

(** X3. The events of a read served in full by an open, readable source:
    a file-changed event, carrying the file object and the index, exactly
    when the name of the source is not the recorded name (two file objects
    of the same name are one file to it), then a progress event with the
    new offset, the size and the float quotient exactly when its rounding
    differs from the recorded one. *)
Theorem read_frame_events (s : state) (f : nat) (o : pyfile) (sz : Z) (n : nat) :
  py_index (active_files s) (current_file_index s) = Some f ->
  current_file_index s < Z.of_nat (length (active_files s)) ->
  force_seek s = false ->
  heap s !! f = Some o -> f_closed o = false -> readable_mode o = true ->
  resolved_size s o = Some sz -> sz <> 0 ->
  (f_pos o + n <= length (f_data o))%nat ->
  percentage_overflows (Z.of_nat (f_pos o + n)) sz = false ->
  let off := Z.of_nat (f_pos o + n) in
  events (state_of (_read_frame n s)) =
    events s ++
    (if name_is (last_file_name s) (f_name o) then []
     else [FileChanged (Some f) (current_file_index s)]) ++
    (if last_progress_percentage s =? round1 (percentage_of off sz) then []
     else [FileProgress off sz (percentage_of off sz)]).
Proof.
  intros Hf Hi Hs Ho Hc Hrd Hsz Hnz Hn Hov off.
  destruct (read_frame_full s f o sz n Hf Hi Hs Ho Hc Hrd Hsz Hnz Hn Hov) as [Hr _].
  rewrite Hr. simpl. rewrite bookkept_events. reflexivity.
Qed.

Lemma read_frame_events_witness :
  let off := Z.of_nat (f_pos (opened "a.raw") + 4) in
  events (state_of (_read_frame 4 one_file_queued)) =
    events one_file_queued ++
    (if name_is (last_file_name one_file_queued) (f_name (opened "a.raw")) then []
     else [FileChanged (Some 0%nat) (current_file_index one_file_queued)]) ++
    (if last_progress_percentage one_file_queued =? round1 (percentage_of off 10)
     then [] else [FileProgress off 10 (percentage_of off 10)]).
Proof.
  apply (read_frame_events one_file_queued 0%nat (opened "a.raw") 10 4%nat);
    first [reflexivity | discriminate | vm_compute; lia].
Defined.

(** ** Reads that run into the end of a source on hold *)

(** The step of a hold queue at the end of a source. *)
Lemma read_short_hold_step (s : state) (f : nat) (o : pyfile) (sz : Z) (n : nat) :
  input_files s = [] ->
  0 <= current_file_index s < Z.of_nat (length (hold_files s)) ->
  hold_files s !! Z.to_nat (current_file_index s) = Some f ->
  force_seek s = false ->
  heap s !! f = Some o -> f_closed o = false -> readable_mode o = true ->
  resolved_size s o = Some sz -> sz <> 0 ->
  (length (f_data o) - f_pos o < n)%nat ->
  percentage_overflows
    (Z.of_nat (f_pos o + (length (f_data o) - f_pos o))) sz = false ->
  let i' := (current_file_index s + 1) mod Z.of_nat (length (hold_files s)) in
  exists s' cur,
    _read_frame n s = Ok (Some (drop (f_pos o) (f_data o))) s' /\
    hold_files s !! Z.to_nat i' = Some cur /\
    hold_files s' = hold_files s /\ input_files s' = [] /\
    current_file_index s' = i' /\ current_file s' = Some cur /\
    current_bytes_offset s' = 0 /\
    heap s' !! f = Some (rewound (with_size o sz)) /\
    io_log s' = io_log s ++ [IoRead f n; IoSeek f 0] /\
    force_seek s' = false /\ disk s' = disk s /\
    length (heap s') = length (heap s) /\
    forall g, g <> f -> heap s' !! g = heap s !! g.
Proof.
  intros Hin Hr Hf Hs Ho Hc Hrd Hsz Hnz Hn Hov i'.
  assert (Hne : hold_files s <> []).
  { intros E. rewrite E in Hf. discriminate. }
  assert (Ha : active_files s = hold_files s).
  { unfold active_files. destruct (hold_files s); [contradiction | reflexivity]. }
  assert (Hfr : frame_of o n = drop (f_pos o) (f_data o)).
  { unfold frame_of. apply take_ge. rewrite length_drop. lia. }
  assert (Hl : length (frame_of o n) = (length (f_data o) - f_pos o)%nat).
  { rewrite Hfr. apply length_drop. }
  assert (Hlen : (length (frame_of o n) =? n)%nat = false).
  { apply Nat.eqb_neq. lia. }
  assert (Hlt : (f < length (heap s))%nat) by (eapply lookup_lt_Some; eauto).
  set (o1 := advanced o (length (frame_of o n))).
  set (s3 := after_file_read f o n s).
  assert (Ho3 : heap s3 !! f = Some o1)
    by (apply list_lookup_insert_eq; exact Hlt).
  assert (Hsz3 : resolved_size s3 o1 = Some sz) by exact Hsz.
  assert (Hov3 : percentage_overflows (Z.of_nat (f_pos o1)) sz = false).
  { unfold o1. simpl. rewrite Hl. exact Hov. }
  destruct (bookkept_fields f o1 sz s3)
    as (B1 & B2 & B3 & B4 & B5 & B6 & B7 & B8 & B9 & _).
  destruct (bookkept_heap f o1 sz s3 Ho3 Hsz3) as (H1 & HL & Hoth).
  set (sB := bookkept f o1 sz s3) in *.
  simpl in B1, B2, B3, B5, B8, B9.
  destruct (next_file_hold sB f (with_size o1 sz)) as (cur & Hcur & Hnext);
    rewrite ?B1, ?B2, ?B3; try assumption.
  rewrite B2, B3 in Hcur, Hnext. fold i' in Hcur, Hnext.
  eexists. exists cur. split.
  - rewrite (read_frame_plain s f o n); rewrite ?Ha;
      [ | rewrite py_index_nonneg by lia; exact Hf | lia | assumption ..].
    fold s3. rewrite (after_read_bookkept s3 f o1 sz); try assumption.
    fold sB. run. rewrite Hlen, Hnext, Hfr. reflexivity.
  - simpl. rewrite B2, B8.
    assert (HltB : (f < length (heap sB))%nat) by (eapply lookup_lt_Some; eauto).
    split; [exact Hcur|]. split; [reflexivity|]. split; [congruence|].
    split; [reflexivity|]. split; [reflexivity|]. split; [reflexivity|].
    split; [apply list_lookup_insert_eq; exact HltB|].
    split; [now rewrite <- app_assoc|].
    split; [rewrite B5; exact Hs|]. split; [exact B9|].
    split.
    + rewrite length_insert, HL. unfold s3. simpl. apply length_insert.
    + intros g Hg. rewrite list_lookup_insert_ne by auto.
      rewrite (Hoth g Hg). unfold s3. simpl. apply list_lookup_insert_ne. auto.
Qed.

(** X4. With nothing queued for playback, a read that the current hold
    source (open and readable, size known and not zero) cannot serve in
    full returns what is left of it (nothing, when the source is already at
    its end), rewinds that source and moves the cursor to the next hold
    entry, wrapping at the end; the offset is reset to 0, the queue keeps
    all its entries and the other file objects are untouched. *)
Theorem read_frame_short_on_hold (s : state) (f : nat) (o : pyfile) (sz : Z) (n : nat) :
  input_files s = [] ->
  0 <= current_file_index s < Z.of_nat (length (hold_files s)) ->
  hold_files s !! Z.to_nat (current_file_index s) = Some f ->
  force_seek s = false ->
  heap s !! f = Some o -> f_closed o = false -> readable_mode o = true ->
  resolved_size s o = Some sz -> sz <> 0 ->
  (length (f_data o) - f_pos o < n)%nat ->
  percentage_overflows
    (Z.of_nat (f_pos o + (length (f_data o) - f_pos o))) sz = false ->
  let i' := (current_file_index s + 1) mod Z.of_nat (length (hold_files s)) in
  exists s' cur,
    _read_frame n s = Ok (Some (drop (f_pos o) (f_data o))) s' /\
    hold_files s !! Z.to_nat i' = Some cur /\
    hold_files s' = hold_files s /\ input_files s' = [] /\
    current_file_index s' = i' /\ current_file s' = Some cur /\
    current_bytes_offset s' = 0 /\
    heap s' !! f = Some (rewound (with_size o sz)) /\
    io_log s' = io_log s ++ [IoRead f n; IoSeek f 0] /\
    force_seek s' = false /\ disk s' = disk s /\
    length (heap s') = length (heap s) /\
    forall g, g <> f -> heap s' !! g = heap s !! g.
Proof. exact (read_short_hold_step s f o sz n). Qed.

Lemma read_frame_short_on_hold_witness :
  exists s' cur,
    _read_frame 100 hold_one =
      Ok (Some (drop (f_pos (opened "a.raw")) (f_data (opened "a.raw")))) s' /\
    hold_files hold_one !! Z.to_nat 0 = Some cur /\
    hold_files s' = hold_files hold_one /\ input_files s' = [] /\
    current_file_index s' = 0 /\ current_file s' = Some cur /\
    current_bytes_offset s' = 0 /\
    heap s' !! 1%nat = Some (rewound (with_size (opened "a.raw") 10)) /\
    io_log s' = io_log hold_one ++ [IoRead 1 100; IoSeek 1 0] /\
    force_seek s' = false /\ disk s' = disk hold_one /\
    length (heap s') = length (heap hold_one) /\
    forall g, g <> 1%nat -> heap s' !! g = heap hold_one !! g.
Proof.
  apply (read_frame_short_on_hold hold_one 1%nat (opened "a.raw") 10 100%nat);
    first [reflexivity | discriminate | vm_compute; lia
          | split; [intros H; vm_compute in H; discriminate H | reflexivity] ].
Defined.

(** ** Sources of size zero *)

Lemma read_frame_zero_once s f o n :
  py_index (active_files s) (current_file_index s) = Some f ->
  current_file_index s < Z.of_nat (length (active_files s)) ->
  force_seek s = false ->
  heap s !! f = Some o -> f_closed o = false -> readable_mode o = true ->
  resolved_size s o = Some 0 ->
  let o1 := advanced o (length (frame_of o n)) in
  let s' := noted_name o1 (noted_size f o1 0 (noted_offset o1 (after_file_read f o n s))) in
  _read_frame n s = Raise ZeroDivisionError s' /\
  input_files s' = input_files s /\ hold_files s' = hold_files s /\
  current_file_index s' = current_file_index s /\ force_seek s' = false /\
  heap s' !! f = Some (with_size o1 0) /\
  resolved_size s' (with_size o1 0) = Some 0 /\
  io_log s' = io_log s ++ [IoRead f n].
Proof.
  intros Hf Hi Hs Ho Hc Hrd Hsz o1 s'.
  assert (Hlt : (f < length (heap s))%nat) by (eapply lookup_lt_Some; eauto).
  assert (Ho3 : heap (after_file_read f o n s) !! f = Some o1)
    by (apply list_lookup_insert_eq; exact Hlt).
  split.
  { rewrite (read_frame_plain s f o n Hf Hi Hs Ho Hc Hrd).
    apply after_read_zero_size; assumption. }
  subst s'. unfold noted_name, noted_size, noted_offset.
  unfold resolved_size in Hsz.
  destruct (f_size o) as [z|] eqn:Es; simpl; rewrite Es.
  all: match goal with |- context [if name_is ?a ?b then _ else _] =>
         destruct (name_is a b) end; simpl.
  all: repeat apply conj; try reflexivity; try assumption.
  all: try (apply list_lookup_insert_eq; rewrite length_insert; exact Hlt).
  all: inversion Hsz; subst z; rewrite list_lookup_insert_eq by exact Hlt;
    f_equal; unfold with_size, o1, advanced; simpl; rewrite Es; reflexivity.
Qed.

(** X5. An open, readable source whose size is zero stops the pump: the
    read raises [ZeroDivisionError] when it computes the percentage, before
    the test that would advance to the next source, so the queues and the
    cursor stay as they are and every later read raises again. *)
Theorem read_frame_empty_source (s : state) (f : nat) (o : pyfile) (n : nat) :
  py_index (active_files s) (current_file_index s) = Some f ->
  current_file_index s < Z.of_nat (length (active_files s)) ->
  force_seek s = false ->
  heap s !! f = Some o -> f_closed o = false -> readable_mode o = true ->
  resolved_size s o = Some 0 ->
  exists s',
    _read_frame n s = Raise ZeroDivisionError s' /\
    input_files s' = input_files s /\ hold_files s' = hold_files s /\
    current_file_index s' = current_file_index s /\
    forall m, exists s'',
      _read_frame m s' = Raise ZeroDivisionError s'' /\
      input_files s'' = input_files s /\ hold_files s'' = hold_files s /\
      current_file_index s'' = current_file_index s.
Proof.
  intros Hf Hi Hs Ho Hc Hrd Hsz.
  destruct (read_frame_zero_once s f o n Hf Hi Hs Ho Hc Hrd Hsz)
    as (Hr & Hin & Hh & Hidx & Hfs & Hheap & Hrs & _).
  eexists. split; [exact Hr|]. repeat apply conj; try assumption.
  intros m.
  match type of Hr with _ = Raise _ ?x => set (s1 := x) in * end.
  assert (Ha : active_files s1 = active_files s).
  { unfold active_files. now rewrite Hin, Hh. }
  destruct (read_frame_zero_once s1 f
              (with_size (advanced o (length (frame_of o n))) 0) m)
    as (Hr2 & Hin2 & Hh2 & Hidx2 & _); rewrite ?Ha, ?Hidx; try assumption.
  eexists. split; [exact Hr2|]. repeat apply conj; congruence.
Qed.

Lemma read_frame_empty_source_witness :
  exists s',
    _read_frame 4 empty_file_queued = Raise ZeroDivisionError s' /\
    input_files s' = input_files empty_file_queued /\
    hold_files s' = hold_files empty_file_queued /\
    current_file_index s' = current_file_index empty_file_queued /\
    forall m, exists s'',
      _read_frame m s' = Raise ZeroDivisionError s'' /\
      input_files s'' = input_files empty_file_queued /\
      hold_files s'' = hold_files empty_file_queued /\
      current_file_index s'' = current_file_index empty_file_queued.
Proof.
  apply (read_frame_empty_source empty_file_queued 0%nat empty_file 4%nat);
    first [reflexivity | discriminate | vm_compute; lia].
Defined.

(** ** Seeking inside the active queue *)

(** X6. A seek to an index the active queue has (counted from the end when
    negative) records the index, the file object there and the largest even
    offset not above the requested one, and sets [force_seek]; it touches no
    file object: the repositioning is left to the next read. *)
Theorem seek_in_range (s : state) (off i : Z) (f : nat) :
  py_index (active_files s) i = Some f ->
  i < Z.of_nat (length (active_files s)) ->
  let e := off / 2 * 2 in
  seek off (Some i) s =
    Ok tt (set_force_seek true (set_current_bytes_offset e
             (set_current_file (Some f) (set_current_file_index i s)))) /\
  Z.even e = true /\ e <= off < e + 2 /\
  heap (state_of (seek off (Some i) s)) = heap s /\
  io_log (state_of (seek off (Some i) s)) = io_log s.
Proof.
  intros Hf Hi e.
  assert (E : seek off (Some i) s =
              Ok tt (set_force_seek true (set_current_bytes_offset e
                       (set_current_file (Some f) (set_current_file_index i s))))).
  { unfold seek, getitem. run.
    destruct (Z.leb_spec (Z.of_nat (length (active_files s))) i); [lia|].
    simpl. rewrite Hf. reflexivity. }
  rewrite E. repeat apply conj; try reflexivity.
  - subst e. rewrite Z.mul_comm, Z.even_mul. reflexivity.
  - subst e. pose proof (Z.mod_pos_bound off 2). pose proof (Z.div_mod off 2). lia.
  - subst e. pose proof (Z.mod_pos_bound off 2). pose proof (Z.div_mod off 2). lia.
Qed.

Lemma seek_in_range_witness :
  let e := 7 / 2 * 2 in
  seek 7 (Some (-1)) seeked_second =
    Ok tt (set_force_seek true (set_current_bytes_offset e
             (set_current_file (Some 2%nat) (set_current_file_index (-1) seeked_second)))) /\
  Z.even e = true /\ e <= 7 < e + 2 /\
  heap (state_of (seek 7 (Some (-1)) seeked_second)) = heap seeked_second /\
  io_log (state_of (seek 7 (Some (-1)) seeked_second)) = io_log seeked_second.
Proof.
  apply (seek_in_range seeked_second 7 (-1) 2%nat); vm_compute; reflexivity.
Defined.

Lemma set_current_file_same t f :
  current_file t = Some f -> set_current_file (Some f) t = t.
Proof. destruct t. simpl. intros ->. reflexivity. Qed.

Lemma read_frame_refused_seek t f o n :
  py_index (active_files t) (current_file_index t) = Some f ->
  current_file_index t < Z.of_nat (length (active_files t)) ->
  force_seek t = true -> current_file t = Some f ->
  - 2 ^ 63 <= current_bytes_offset t < 0 ->
  heap t !! f = Some o -> f_closed o = false ->
  _read_frame n t = Raise OSError (log_io (IoSeek f (current_bytes_offset t)) t).
Proof.
  intros Hf Hi Hs Hcur Hoff Ho Hc.
  rewrite (read_frame_head t f n Hf Hi), Hs.
  rewrite (set_current_file_same t f Hcur).
  apply bind_raise. apply bind_raise. unfold file_seek.
  rewrite (bind_ok _ _ t o t (deref_ok t f o Ho)). rewrite Hc. run.
  destruct (Z.ltb_spec (current_bytes_offset t) (- 2 ^ 63)); [lia|].
  destruct (Z.leb_spec (2 ^ 63) (current_bytes_offset t)); [lia|].
  destruct (Z.ltb_spec (current_bytes_offset t) 0); [|lia].
  reflexivity.
Qed.

(** X7. A negative offset passes [seek] (its even floor is recorded and
    [force_seek] is set) and fails at the next read: on an open file the
    read raises [OSError] at [file.seek] and changes nothing but the record
    of the refused seek; [force_seek] stays set, so every read raises in
    the same way until another seek. *)
Theorem seek_negative_offset (s : state) (off i : Z) (f : nat) (o : pyfile) :
  py_index (active_files s) i = Some f ->
  i < Z.of_nat (length (active_files s)) ->
  heap s !! f = Some o -> f_closed o = false ->
  - 2 ^ 63 <= off < 0 ->
  let e := off / 2 * 2 in
  exists s1,
    seek off (Some i) s = Ok tt s1 /\
    current_bytes_offset s1 = e /\ e < 0 /\ force_seek s1 = true /\
    forall (k n : nat),
      _read_frame n (Nat.iter k (log_io (IoSeek f e)) s1) =
        Raise OSError (Nat.iter (S k) (log_io (IoSeek f e)) s1).
Proof.
  intros Hf Hi Ho Hc Hoff e.
  assert (E : seek off (Some i) s =
              Ok tt (set_force_seek true (set_current_bytes_offset e
                       (set_current_file (Some f) (set_current_file_index i s))))).
  { unfold seek, getitem. run.
    destruct (Z.leb_spec (Z.of_nat (length (active_files s))) i); [lia|].
    simpl. rewrite Hf. reflexivity. }
  assert (He : - 2 ^ 63 <= e < 0).
  { subst e. pose proof (Z.mod_pos_bound off 2). pose proof (Z.div_mod off 2).
    assert (- 2 ^ 63 = (- 2 ^ 62) * 2) by reflexivity.
    assert (- 2 ^ 62 <= off / 2) by (apply Z.div_le_lower_bound; lia).
    lia. }
  eexists. split; [exact E|]. simpl.
  split; [reflexivity|]. split; [lia|]. split; [reflexivity|].
  set (s1 := set_force_seek true (set_current_bytes_offset e
               (set_current_file (Some f) (set_current_file_index i s)))).
  assert (Inv : forall k, let t := Nat.iter k (log_io (IoSeek f e)) s1 in
            active_files t = active_files s /\ current_file_index t = i /\
            force_seek t = true /\ current_file t = Some f /\
            current_bytes_offset t = e /\ heap t = heap s).
  { induction k as [|k IH]; simpl; [repeat apply conj; reflexivity|].
    simpl in IH. destruct IH as (A & B & C & D & F & G).
    repeat apply conj; assumption. }
  intros k n. destruct (Inv k) as (A & B & C & D & F & G).
  pose proof (read_frame_refused_seek (Nat.iter k (log_io (IoSeek f e)) s1) f o n)
    as R.
  rewrite A, B, F, G in R. simpl. apply R; assumption.
Qed.

Lemma seek_negative_offset_witness :
  let e := -3 / 2 * 2 in
  exists s1,
    seek (-3) (Some 0) one_file_queued = Ok tt s1 /\
    current_bytes_offset s1 = e /\ e < 0 /\ force_seek s1 = true /\
    forall (k n : nat),
      _read_frame n (Nat.iter k (log_io (IoSeek 0 e)) s1) =
        Raise OSError (Nat.iter (S k) (log_io (IoSeek 0 e)) s1).
Proof.
  apply (seek_negative_offset one_file_queued (-3) 0 0%nat (opened "a.raw"));
    first [reflexivity | vm_compute; split; [discriminate | reflexivity]].
Defined.

(** ** Progress reports in general *)

(** X8. Whatever the progress reports are, the events they add are progress
    events, at most one per report; their rounded percentages, put after
    the percentage recorded before, never repeat from one to the next. *)
Theorem progress_all_no_repeat (reports : list (Z * Z * Q)) : forall s : state,
  exists s' new,
    progress_all reports s = Ok tt s' /\
    events s' = events s ++ new /\
    (length new <= length reports)%nat /\
    no_repeat (last_progress_percentage s :: omap progress_value new) /\
    length (omap progress_value new) = length new /\
    last (last_progress_percentage s :: omap progress_value new) =
      Some (last_progress_percentage s').
Proof.
  induction reports as [|[[o t] p] rs IH]; intros s.
  - exists s, []. simpl. rewrite app_nil_r.
    split; [|split; [|split; [|split; [|split]]]]; auto.
  - destruct (Z.eq_dec (last_progress_percentage s) (round1 p)) as [E|E].
    + destruct (IH s) as (s' & new & Hr & He & Hl & Hn & Hv & Hlast).
      exists s', new. split; [|split; [|split; [|split; [|split]]]];
        try assumption.
      * simpl. rewrite (bind_ok _ _ s tt s) by (apply file_progress_same; exact E).
        exact Hr.
      * simpl. lia.
    + set (s1 := emit (FileProgress o t p)
                   (set_last_progress_percentage (round1 p) s)).
      destruct (IH s1) as (s' & new & Hr & He & Hl & Hn & Hv & Hlast).
      exists s', (FileProgress o t p :: new).
      assert (Eom : omap progress_value (FileProgress o t p :: new) =
                    round1 p :: omap progress_value new) by reflexivity.
      rewrite Eom. change (last_progress_percentage s1) with (round1 p) in Hn, Hlast.
      split; [|split; [|split; [|split; [|split]]]].
      * simpl. rewrite (bind_ok _ _ s tt s1) by (apply file_progress_new; exact E).
        exact Hr.
      * rewrite He. simpl. rewrite <- app_assoc. reflexivity.
      * simpl. lia.
      * split; [exact E | exact Hn].
      * simpl. now rewrite Hv.
      * exact Hlast.
Qed.

(** ** Stepping forward and back on hold *)

Lemma previous_file_hold s f o :
  input_files s = [] ->
  0 <= current_file_index s < Z.of_nat (length (hold_files s)) ->
  hold_files s !! Z.to_nat (current_file_index s) = Some f ->
  heap s !! f = Some o -> f_closed o = false ->
  let i' := (current_file_index s - 1) mod Z.of_nat (length (hold_files s)) in
  exists cur,
    hold_files s !! Z.to_nat i' = Some cur /\
    previous_file s =
      Ok (Some cur)
         (set_current_file (Some cur)
            (set_current_file_index i'
               (set_current_bytes_offset 0
                  (log_io (IoSeek f 0)
                     (set_heap (<[f := rewound o]> (heap s)) s))))).
Proof.
  intros Hin Hr Hf Ho Hc i'.
  set (len := Z.of_nat (length (hold_files s))) in *.
  assert (Hi' : 0 <= i' < len) by (apply Z.mod_pos_bound; lia).
  assert (Hnew : (if 0 <=? current_file_index s - 1
                  then current_file_index s - 1 else len - 1) = i').
  { subst i'. destruct (Z.leb_spec 0 (current_file_index s - 1)).
    - rewrite Z.mod_small by lia. reflexivity.
    - assert (current_file_index s = 0) as -> by lia.
      replace (0 - 1) with (len - 1 + (-1) * len) by lia.
      rewrite Z.mod_add by lia. rewrite Z.mod_small by lia. reflexivity. }
  destruct (lookup_lt_is_Some_2 (hold_files s) (Z.to_nat i')) as [cur Hcur];
    [subst len; lia|].
  exists cur. split; [exact Hcur|].
  unfold previous_file. run. rewrite Hin.
  rewrite (getitem_in_range _ _ f) by (lia || assumption).
  rewrite (file_seek_ok s f o 0 Ho Hc) by (try apply seek_limit_small; lia).
  simpl. fold len. rewrite Hnew.
  rewrite (getitem_in_range _ _ cur) by (lia || assumption).
  reflexivity.
Qed.

(** X9. On hold only, with every hold file open, [next_file] followed by
    [previous_file] brings the cursor back to the entry it was on, with the
    offset at 0; both calls succeed and the hold queue is unchanged. *)
Theorem next_then_previous (s : state) (f : nat) :
  input_files s = [] -> hold_open s ->
  0 <= current_file_index s < Z.of_nat (length (hold_files s)) ->
  hold_files s !! Z.to_nat (current_file_index s) = Some f ->
  exists a s1 s2,
    next_file s = Ok a s1 /\ previous_file s1 = Ok (Some f) s2 /\
    current_file_index s2 = current_file_index s /\
    current_file s2 = Some f /\ current_bytes_offset s2 = 0 /\
    hold_files s2 = hold_files s /\ input_files s2 = [] /\
    force_seek s2 = force_seek s.
Proof.
  intros Hin Hop Hr Hf.
  set (K := Z.of_nat (length (hold_files s))) in *.
  destruct (Hop f) as (o & Ho & Hc); [eapply list_elem_of_lookup_2; eauto|].
  destruct (next_file_hold s f o Hin Hr Hf Ho Hc) as (cur & Hcur & Hnext).
  fold K in Hcur, Hnext.
  match type of Hnext with _ = Ok _ ?x => set (s1 := x) in * end.
  assert (Hop1 : hold_open s1).
  { intros g Hg. destruct (Hop g Hg) as (og & Hog & Hcg).
    eapply (rewinds_only_open (heap s)); eauto.
    apply rewinds_only_insert. exact Ho. }
  destruct (Hop1 cur) as (oc & Hoc & Hcc); [eapply list_elem_of_lookup_2; eauto|].
  assert (Hr1 : 0 <= current_file_index s1 < Z.of_nat (length (hold_files s1))).
  { simpl. apply Z.mod_pos_bound. lia. }
  destruct (previous_file_hold s1 cur oc Hin Hr1 Hcur Hoc Hcc) as (back & Hback & Hprev).
  simpl in Hback, Hprev. fold K in Hback, Hprev.
  assert (Eb : (((current_file_index s + 1) mod K) - 1) mod K = current_file_index s).
  { rewrite Zminus_mod_idemp_l.
    replace (current_file_index s + 1 - 1) with (current_file_index s) by lia.
    apply Z.mod_small. lia. }
  rewrite Eb in Hback, Hprev. rewrite Hf in Hback. inversion Hback; subst back.
  eexists _, s1, _. split; [exact Hnext|]. split; [exact Hprev|].
  simpl. repeat apply conj; first [reflexivity | exact Hin].
Qed.

Lemma next_then_previous_witness :
  exists a s1 s2,
    next_file hold_three = Ok a s1 /\ previous_file s1 = Ok (Some 1%nat) s2 /\
    current_file_index s2 = current_file_index hold_three /\
    current_file s2 = Some 1%nat /\ current_bytes_offset s2 = 0 /\
    hold_files s2 = hold_files hold_three /\ input_files s2 = [] /\
    force_seek s2 = force_seek hold_three.
Proof.
  apply (next_then_previous hold_three 1%nat).
  - reflexivity.
  - intros f Hf. change (hold_files hold_three) with [0%nat; 1%nat; 2%nat] in Hf.
    repeat (apply elem_of_cons in Hf; destruct Hf as [->|Hf]);
      [eexists; split; reflexivity .. | inversion Hf].
  - split; [intros H; vm_compute in H; discriminate H | vm_compute; reflexivity].
  - reflexivity.
Defined.

(** ** Reads that run into the end of a playback source *)

Lemma read_frame_short_playback s f rest o sz n :
  hold_files s = [] -> input_files s = f :: rest ->
  current_file_index s = 0 -> force_seek s = false ->
  heap s !! f = Some o -> f_closed o = false -> readable_mode o = true ->
  resolved_size s o = Some sz -> sz <> 0 ->
  (length (f_data o) - f_pos o < n)%nat ->
  percentage_overflows
    (Z.of_nat (f_pos o + (length (f_data o) - f_pos o))) sz = false ->
  let o1 := advanced o (length (f_data o) - f_pos o) in
  let sB := bookkept f o1 sz (after_file_read f o n s) in
  let sP := set_input_files rest
              (log_io (IoClose f)
                 (set_heap (<[f := closed_file (with_size o1 sz)]> (heap sB)) sB)) in
  _read_frame n s =
    match rest with
    | g :: _ => Ok (Some (drop (f_pos o) (f_data o))) (set_current_file (Some g) sP)
    | [] => Raise IndexError sP
    end /\
  heap sP !! f = Some (closed_file (with_size o1 sz)) /\
  io_log sP = io_log s ++ [IoRead f n; IoClose f] /\
  hold_files sP = [] /\ current_file_index sP = 0.
Proof.
  intros Hh Hin Hi Hs Ho Hc Hrd Hsz Hnz Hn Hov o1 sB sP.
  assert (Ha : active_files s = f :: rest).
  { unfold active_files. now rewrite Hh, Hin. }
  assert (Hfr : frame_of o n = drop (f_pos o) (f_data o)).
  { unfold frame_of. apply take_ge. rewrite length_drop. lia. }
  assert (Hl : length (frame_of o n) = (length (f_data o) - f_pos o)%nat).
  { rewrite Hfr. apply length_drop. }
  assert (Hlen : (length (frame_of o n) =? n)%nat = false).
  { apply Nat.eqb_neq. lia. }
  assert (Hlt : (f < length (heap s))%nat) by (eapply lookup_lt_Some; eauto).
  assert (Ho3 : heap (after_file_read f o n s) !! f = Some o1).
  { unfold o1. rewrite <- Hl. apply list_lookup_insert_eq. exact Hlt. }
  assert (Hsz3 : resolved_size (after_file_read f o n s) o1 = Some sz) by exact Hsz.
  destruct (bookkept_fields f o1 sz (after_file_read f o n s))
    as (B1 & B2 & B3 & B4 & B5 & B6 & B7 & B8 & _).
  destruct (bookkept_heap f o1 sz _ Ho3 Hsz3) as (H1 & _).
  fold sB in B1, B2, B3, B8, H1. simpl in B1, B2, B3, B8.
  assert (HltB : (f < length (heap sB))%nat) by (eapply lookup_lt_Some; eauto).
  split; [|repeat apply conj].
  - rewrite (read_frame_plain s f o n); rewrite ?Ha, ?Hi;
      [ | reflexivity | simpl; lia | assumption ..].
    rewrite (after_read_bookkept _ f (advanced o (length (frame_of o n))) sz);
      rewrite ?Hl; try assumption.
    fold o1 sB. run.
    assert (Hlen' : ((length (f_data o) - f_pos o)%nat =? n)%nat = false)
      by (apply Nat.eqb_neq; lia).
    rewrite Hlen'.
    rewrite (next_file_playback sB f (with_size o1 sz));
      rewrite ?B1, ?B3, ?Hin, ?Hi; try assumption; try discriminate;
      try reflexivity.
    simpl. fold sP. rewrite Hfr. destruct rest; reflexivity.
  - subst sP. simpl. now apply list_lookup_insert_eq.
  - subst sP. simpl. rewrite B8, <- app_assoc. reflexivity.
  - subst sP. simpl. rewrite B2. exact Hh.
  - subst sP. simpl. rewrite B3. exact Hi.
Qed.

(** X10. With no hold queue and at least two files queued for playback, a
    read that the head (open and readable, size known and not zero) cannot
    serve in full returns what is left of the head, closes it and removes
    it; the file behind it becomes the head and the current file, and the
    cursor stays at 0. *)
Theorem read_frame_advances_playback (s : state) (f g : nat) (q : list nat)
    (o : pyfile) (sz : Z) (n : nat) :
  hold_files s = [] -> input_files s = f :: g :: q ->
  current_file_index s = 0 -> force_seek s = false ->
  heap s !! f = Some o -> f_closed o = false -> readable_mode o = true ->
  resolved_size s o = Some sz -> sz <> 0 ->
  (length (f_data o) - f_pos o < n)%nat ->
  percentage_overflows
    (Z.of_nat (f_pos o + (length (f_data o) - f_pos o))) sz = false ->
  exists s' o',
    _read_frame n s = Ok (Some (drop (f_pos o) (f_data o))) s' /\
    input_files s' = g :: q /\ hold_files s' = [] /\
    current_file_index s' = 0 /\ current_file s' = Some g /\
    heap s' !! f = Some o' /\ f_closed o' = true /\
    io_log s' = io_log s ++ [IoRead f n; IoClose f].
Proof.
  intros Hh Hin Hi Hs Ho Hc Hrd Hsz Hnz Hn Hov.
  destruct (read_frame_short_playback s f (g :: q) o sz n)
    as (Hr & Hheap & Hlog & Hh' & Hi'); try assumption.
  eexists _, (closed_file (with_size (advanced o (length (f_data o) - f_pos o)) sz)).
  split; [exact Hr|]. simpl.
  repeat apply conj; try reflexivity; assumption.
Qed.

Lemma read_frame_advances_playback_witness :
  exists s' o',
    _read_frame 100 both_played =
      Ok (Some (drop (f_pos (opened "a.raw")) (f_data (opened "a.raw")))) s' /\
    input_files s' = [1%nat] /\ hold_files s' = [] /\
    current_file_index s' = 0 /\ current_file s' = Some 1%nat /\
    heap s' !! 0%nat = Some o' /\ f_closed o' = true /\
    io_log s' = io_log both_played ++ [IoRead 0 100; IoClose 0].
Proof.
  apply (read_frame_advances_playback both_played 0%nat 1%nat [] (opened "a.raw") 10);
    first [reflexivity | discriminate | vm_compute; lia].
Defined.

(** X11. With no hold queue and a single file queued for playback (open
    and readable, size known and not zero), a read that the file cannot
    serve in full never returns: the file is closed and removed, and
    [IndexError] is raised when the emptied queue is indexed, so the bytes
    that were read are lost to the caller. *)
Theorem read_frame_exhausts_last_file (s : state) (f : nat) (o : pyfile)
    (sz : Z) (n : nat) :
  hold_files s = [] -> input_files s = [f] ->
  current_file_index s = 0 -> force_seek s = false ->
  heap s !! f = Some o -> f_closed o = false -> readable_mode o = true ->
  resolved_size s o = Some sz -> sz <> 0 ->
  (length (f_data o) - f_pos o < n)%nat ->
  percentage_overflows
    (Z.of_nat (f_pos o + (length (f_data o) - f_pos o))) sz = false ->
  exists s' o',
    _read_frame n s = Raise IndexError s' /\
    input_files s' = [] /\ hold_files s' = [] /\
    heap s' !! f = Some o' /\ f_closed o' = true /\
    io_log s' = io_log s ++ [IoRead f n; IoClose f].
Proof.
  intros Hh Hin Hi Hs Ho Hc Hrd Hsz Hnz Hn Hov.
  destruct (read_frame_short_playback s f [] o sz n)
    as (Hr & Hheap & Hlog & Hh' & Hi'); try assumption.
  eexists _, (closed_file (with_size (advanced o (length (f_data o) - f_pos o)) sz)).
  split; [exact Hr|]. simpl.
  repeat apply conj; try reflexivity; assumption.
Qed.

Lemma read_frame_exhausts_last_file_witness :
  exists s' o',
    _read_frame 100 one_file_queued = Raise IndexError s' /\
    input_files s' = [] /\ hold_files s' = [] /\
    heap s' !! 0%nat = Some o' /\ f_closed o' = true /\
    io_log s' = io_log one_file_queued ++ [IoRead 0 100; IoClose 0].
Proof.
  apply (read_frame_exhausts_last_file one_file_queued 0%nat (opened "a.raw") 10);
    first [reflexivity | discriminate | vm_compute; lia].
Defined.

(** ** Closing and clearing *)

(** X12. [clear_play_queue] closes every file queued for playback, in queue
    order, empties the queue and resets the cursor (index, offset, current
    file and recorded name), which the hold queue shares; the hold queue
    itself, its file objects and [force_seek] are left as they are. *)
Theorem clear_play_queue_spec (s : state) :
  (forall f, f ∈ input_files s -> (f < length (heap s))%nat) ->
  exists s',
    clear_play_queue s = Ok tt s' /\
    input_files s' = [] /\ hold_files s' = hold_files s /\
    current_file_index s' = 0 /\ current_bytes_offset s' = 0 /\
    current_file s' = None /\ last_file_name s' = None /\
    force_seek s' = force_seek s /\
    closes (input_files s) (heap s) (heap s') /\
    io_log s' = io_log s ++ (IoClose <$> input_files s).
Proof.
  intros Hl. eexists. split; [apply clear_play_queue_eq; exact Hl|].
  simpl. repeat apply conj; try reflexivity.
  - apply closed_heap_closes. exact Hl.
  - apply closed_heap_closes. exact Hl.
Qed.

Lemma clear_play_queue_spec_witness :
  exists s',
    clear_play_queue both_queues = Ok tt s' /\
    input_files s' = [] /\ hold_files s' = hold_files both_queues /\
    current_file_index s' = 0 /\ current_bytes_offset s' = 0 /\
    current_file s' = None /\ last_file_name s' = None /\
    force_seek s' = force_seek both_queues /\
    closes (input_files both_queues) (heap both_queues) (heap s') /\
    io_log s' = io_log both_queues ++ (IoClose <$> input_files both_queues).
Proof.
  apply (clear_play_queue_spec both_queues).
  intros f Hf. change (input_files both_queues) with [0%nat] in Hf.
  apply list_elem_of_singleton in Hf. subst f. vm_compute. lia.
Defined.

(** ** Replacing the hold queue *)

(** X13. [play_on_hold] with a list of file objects replaces the hold queue
    wholesale: the files that were on hold are closed, the new queue holds
    the objects of the list that have a binary reading mode, in list order,
    one diagnostic is printed for each object left out, and the cursor is
    reset.  The playback queue is not touched. *)
Theorem play_on_hold_replaces (s : state) (hs : list nat) :
  (forall f, f ∈ hold_files s -> (f < length (heap s))%nat) ->
  (forall h, h ∈ hs -> (h < length (heap s))%nat) ->
  exists s',
    play_on_hold (Seq (Handle <$> hs)) s = Ok tt s' /\
    hold_files s' = filter (readable (heap s)) hs /\
    input_files s' = input_files s /\
    closes (hold_files s) (heap s) (heap s') /\
    current_file_index s' = 0 /\ current_bytes_offset s' = 0 /\
    current_file s' = None /\ last_file_name s' = None /\
    length (stdout s') =
      (length (stdout s) + (length hs - length (hold_files s')))%nat.
Proof.
  intros Hold Hnew.
  pose proof (closed_heap_closes (hold_files s) (heap s) Hold) as Hcl.
  eexists. split.
  - unfold play_on_hold.
    rewrite (bind_ok _ _ s tt _ (clear_hold_queue_eq s Hold)).
    apply play_on_hold_loop_handles. simpl. intros h Hh.
    rewrite (proj1 Hcl). apply Hnew. exact Hh.
  - simpl.
    assert (Ef : filter (readable (closed_heap (hold_files s) (heap s))) hs =
                 filter (readable (heap s)) hs).
    { apply list_filter_iff. intros h. now rewrite (readable_closes _ _ _ h Hcl). }
    rewrite Ef. repeat apply conj; try reflexivity.
    + apply Hcl.
    + apply Hcl.
    + rewrite length_app, length_replicate. reflexivity.
Qed.

Lemma play_on_hold_replaces_witness :
  exists s',
    play_on_hold (Seq (Handle <$> [0%nat; 1%nat])) hold_one = Ok tt s' /\
    hold_files s' = filter (readable (heap hold_one)) [0%nat; 1%nat] /\
    input_files s' = input_files hold_one /\
    closes (hold_files hold_one) (heap hold_one) (heap s') /\
    current_file_index s' = 0 /\ current_bytes_offset s' = 0 /\
    current_file s' = None /\ last_file_name s' = None /\
    length (stdout s') =
      (length (stdout hold_one) + (length [0%nat; 1%nat] - length (hold_files s')))%nat.
Proof.
  apply (play_on_hold_replaces hold_one [0%nat; 1%nat]).
  - intros f Hf. change (hold_files hold_one) with [1%nat] in Hf.
    apply list_elem_of_singleton in Hf. subst f. vm_compute. lia.
  - intros h Hh.
    repeat (apply elem_of_cons in Hh; destruct Hh as [->|Hh]);
      [vm_compute; lia .. | inversion Hh].
Defined.

(** ** Releasing everything *)

Lemma unset_output_file_some s f o :
  output_file s = Some f -> heap s !! f = Some o ->
  unset_output_file s =
    Ok tt (set_output None
             (log_io (IoClose f) (set_heap (<[f := closed_file o]> (heap s)) s))).
Proof.
  intros Hf Ho. unfold unset_output_file, file_close, deref, store. run.
  rewrite Hf. simpl. rewrite Ho. reflexivity.
Qed.

Lemma unset_output_file_none s :
  output_file s = None -> unset_output_file s = Ok tt (set_output None s).
Proof. intros Hf. unfold unset_output_file. run. now rewrite Hf. Qed.

Lemma closes_closed fs h h' f o :
  closes fs h h' -> h !! f = Some o -> (f ∈ fs \/ f_closed o = true) ->
  exists o', h' !! f = Some o' /\ f_closed o' = true.
Proof.
  intros [L R] Ho Hc. rewrite (R f o Ho). eexists. split; [reflexivity|].
  destruct (bool_decide (f ∈ fs)) eqn:E; [reflexivity|].
  destruct Hc as [Hin|Hc]; [|exact Hc].
  apply bool_decide_eq_false_1 in E. contradiction.
Qed.

(** X14. [__del__] releases what the call holds: both queues end empty, the
    output file is unset, and every live file object that was queued for
    playback, on hold or set as output file is closed. *)
Theorem del_releases (s : state) :
  (forall f, f ∈ input_files s -> (f < length (heap s))%nat) ->
  (forall f, f ∈ hold_files s -> (f < length (heap s))%nat) ->
  (forall f, output_file s = Some f -> (f < length (heap s))%nat) ->
  exists s',
    __del__ s = Ok tt s' /\
    input_files s' = [] /\ hold_files s' = [] /\ output_file s' = None /\
    length (heap s') = length (heap s) /\
    forall f, f ∈ input_files s \/ f ∈ hold_files s \/ output_file s = Some f ->
      exists o', heap s' !! f = Some o' /\ f_closed o' = true.
Proof.
  intros Hi Hh Ho.
  pose proof (closed_heap_closes (input_files s) (heap s) Hi) as C1.
  set (H1 := closed_heap (input_files s) (heap s)) in *.
  assert (Hh1 : forall f, f ∈ hold_files s -> (f < length H1)%nat).
  { intros f Hf. rewrite (proj1 C1). now apply Hh. }
  pose proof (closed_heap_closes (hold_files s) H1 Hh1) as C2.
  set (H2 := closed_heap (hold_files s) H1) in *.
  assert (L2 : length H2 = length (heap s)).
  { rewrite (proj1 C2). apply C1. }
  assert (Hq : forall f, f ∈ input_files s \/ f ∈ hold_files s ->
             exists o2, H2 !! f = Some o2 /\ f_closed o2 = true).
  { intros f Hf.
    destruct (lookup_lt_is_Some_2 (heap s) f) as [o Hof].
    { destruct Hf; [now apply Hi | now apply Hh]. }
    destruct Hf as [Hf|Hf].
    - destruct (closes_closed _ _ _ f o C1 Hof (or_introl Hf)) as (o1 & Ho1 & Hc1).
      eapply closes_closed; eauto.
    - pose proof (proj2 C1 f o Hof) as Ho1.
      eapply closes_closed; eauto. }
  unfold __del__.
  rewrite (bind_ok _ _ s tt _ (clear_play_queue_eq s Hi)).
  erewrite bind_ok by (apply clear_hold_queue_eq; exact Hh1).
  simpl. fold H1 H2.
  destruct (output_file s) as [g|] eqn:Eo.
  - destruct (lookup_lt_is_Some_2 H2 g) as [og Hg]; [rewrite L2; now apply Ho|].
    eexists. split; [apply (unset_output_file_some _ g og); [reflexivity | exact Hg]|].
    simpl. repeat apply conj; try reflexivity.
    + rewrite length_insert. exact L2.
    + intros f Hf. destruct (decide (f = g)) as [->|Hne].
      * exists (closed_file og). split; [|reflexivity].
        apply list_lookup_insert_eq. eapply lookup_lt_Some; eauto.
      * rewrite list_lookup_insert_ne by auto.
        apply Hq. destruct Hf as [?|[?|E]]; auto. congruence.
  - eexists. split; [apply unset_output_file_none; reflexivity|].
    simpl. repeat apply conj; try reflexivity; try exact L2.
    intros f Hf. apply Hq. destruct Hf as [?|[?|E]]; auto. discriminate.
Qed.

Lemma del_releases_witness :
  exists s',
    __del__ all_set = Ok tt s' /\
    input_files s' = [] /\ hold_files s' = [] /\ output_file s' = None /\
    length (heap s') = length (heap all_set) /\
    forall f, f ∈ input_files all_set \/ f ∈ hold_files all_set \/
              output_file all_set = Some f ->
      exists o', heap s' !! f = Some o' /\ f_closed o' = true.
Proof.
  apply (del_releases all_set).
  - intros f Hf. change (input_files all_set) with [0%nat] in Hf.
    apply list_elem_of_singleton in Hf. subst f. vm_compute. lia.
  - intros f Hf. change (hold_files all_set) with [1%nat] in Hf.
    apply list_elem_of_singleton in Hf. subst f. vm_compute. lia.
  - intros f Hf. change (output_file all_set) with (Some 2%nat) in Hf.
    inversion Hf. vm_compute. lia.
Defined.

(** ** The output file *)

(** X15. Setting a second output file does not close the first: after two
    [set_output_file] calls with different writable file objects and an
    [unset_output_file], the second object is closed and the first one is
    still open, untouched. *)
Theorem output_replaced_not_closed (s : state) (h1 h2 : nat) (o1 o2 : pyfile)
    (m1 m2 : string) :
  heap s !! h1 = Some o1 -> f_mode o1 = Some m1 -> bad_write_mode m1 = false ->
  heap s !! h2 = Some o2 -> f_mode o2 = Some m2 -> bad_write_mode m2 = false ->
  h1 <> h2 ->
  exists s',
    (set_output_file (Handle h1);; set_output_file (Handle h2);;
     unset_output_file) s = Ok tt s' /\
    output_file s' = None /\
    heap s' !! h2 = Some (closed_file o2) /\
    heap s' !! h1 = Some o1 /\
    io_log s' = io_log s ++ [IoClose h2].
Proof.
  intros H1 M1 B1 H2 M2 B2 Hne.
  assert (E1 : set_output_file (Handle h1) s = Ok tt (set_output (Some h1) s)).
  { unfold set_output_file, deref. run. now rewrite H1, M1, B1. }
  assert (E2 : set_output_file (Handle h2) (set_output (Some h1) s) =
               Ok tt (set_output (Some h2) s)).
  { unfold set_output_file, deref. run. simpl. now rewrite H2, M2, B2. }
  eexists. split.
  - rewrite (bind_ok _ _ s tt _ E1). rewrite (bind_ok _ _ _ tt _ E2).
    apply (unset_output_file_some _ h2 o2); [reflexivity | exact H2].
  - simpl. repeat apply conj; try reflexivity.
    + apply list_lookup_insert_eq. eapply lookup_lt_Some; eauto.
    + rewrite list_lookup_insert_ne by auto. exact H1.
Qed.

Lemma output_replaced_not_closed_witness :
  exists s',
    (set_output_file (Handle 0);; set_output_file (Handle 1);;
     unset_output_file) two_sinks = Ok tt s' /\
    output_file s' = None /\
    heap s' !! 1%nat = Some (closed_file (sink "y.raw")) /\
    heap s' !! 0%nat = Some (sink "x.raw") /\
    io_log s' = io_log two_sinks ++ [IoClose 1].
Proof.
  apply (output_replaced_not_closed two_sinks 0%nat 1%nat (sink "x.raw")
           (sink "y.raw") "wb"%string "wb"%string);
    first [reflexivity | discriminate].
Defined.

(** ** Queueing a path and reading it *)

(** X16. On a call with both queues empty, the cursor at 0 and no seek
    pending, [play] with the path of a non-empty file followed by a read of
    at most the file's length returns the first bytes of that file; the
    queue then holds the one file object that [play] opened, and the offset
    is the frame length.  A path that is not on disk raises
    [FileNotFoundError] and changes nothing. *)
Theorem play_then_read (s : state) (p : string) (c : list byte) (n : nat) :
  hold_files s = [] -> input_files s = [] ->
  current_file_index s = 0 -> force_seek s = false ->
  lookup_disk (disk s) p = Some c ->
  (0 < length c)%nat -> (n <= length c)%nat ->
  exists s',
    (play (Path p);; _read_frame n) s = Ok (Some (take n c)) s' /\
    input_files s' = [length (heap s)] /\ hold_files s' = [] /\
    current_file s' = Some (length (heap s)) /\
    current_bytes_offset s' = Z.of_nat n /\
    last_file_name s' = Some p /\
    forall q, lookup_disk (disk s) q = None ->
      play (Path q) s = Raise FileNotFoundError s.
Proof.
  intros Hh Hin Hi Hs Hd Hc Hn.
  set (f := length (heap s)).
  set (o := mkfile p (Some "rb"%string) c 0 false None).
  set (s1 := set_input_files (input_files s ++ [f]) (set_heap (heap s ++ [o]) s)).
  assert (E1 : play (Path p) s = Ok tt s1).
  { unfold play, open_rb. run. rewrite Hd. reflexivity. }
  assert (Ho : heap s1 !! f = Some o).
  { simpl. rewrite lookup_app_r by reflexivity.
    subst f. rewrite Nat.sub_diag. reflexivity. }
  assert (Ha : active_files s1 = [f]).
  { unfold active_files. simpl. now rewrite Hh, Hin. }
  assert (Hf1 : py_index (active_files s1) (current_file_index s1) = Some f).
  { rewrite Ha. simpl. now rewrite Hi. }
  assert (Hi1 : current_file_index s1 < Z.of_nat (length (active_files s1))).
  { rewrite Ha. simpl. rewrite Hi. lia. }
  assert (Hsz1 : resolved_size s1 o = Some (Z.of_nat (length c))).
  { unfold resolved_size. simpl. now rewrite Hd. }
  assert (Hov : percentage_overflows (Z.of_nat (f_pos o + n)) (Z.of_nat (length c))
                = false).
  { apply percentage_fits_ratio; simpl; lia. }
  destruct (read_frame_full s1 f o (Z.of_nat (length c)) n Hf1 Hi1 Hs Ho
              eq_refl eq_refl Hsz1)
    as (Hr & _ & Hin' & Hh' & _ & Hcur & Hoff & _); [lia | exact Hn | exact Hov |].
  destruct (bookkept_fields f (advanced o n) (Z.of_nat (length c))
              (after_file_read f o n s1)) as (_ & _ & _ & _ & _ & _ & B7 & _).
  eexists. split; [|repeat apply conj].
  - rewrite (bind_ok _ _ s tt s1 E1). exact Hr.
  - rewrite Hin'. simpl. now rewrite Hin.
  - rewrite Hh'. exact Hh.
  - exact Hcur.
  - rewrite Hoff. reflexivity.
  - exact B7.
  - intros q Hq. unfold play, open_rb. run. now rewrite Hq.
Qed.

Lemma play_then_read_witness :
  exists s',
    (play (Path "a.raw");; _read_frame 4) (fresh one_file_disk) =
      Ok (Some (take 4 (raw 10))) s' /\
    input_files s' = [length (heap (fresh one_file_disk))] /\ hold_files s' = [] /\
    current_file s' = Some (length (heap (fresh one_file_disk))) /\
    current_bytes_offset s' = Z.of_nat 4 /\
    last_file_name s' = Some "a.raw"%string /\
    forall q, lookup_disk (disk (fresh one_file_disk)) q = None ->
      play (Path q) (fresh one_file_disk) = Raise FileNotFoundError (fresh one_file_disk).
Proof.
  apply (play_then_read (fresh one_file_disk) "a.raw" (raw 10) 4%nat);
    first [reflexivity | vm_compute; lia].
Defined.

(** ** A seek and the read after it *)

(** X17. After a seek on an entry of the active queue whose file is open,
    to a non-negative offset whose even floor fits an [off_t] and is one
    the file system takes, the next read repositions that file to the even
    floor of the offset, once and right before reading, clears
    [force_seek], and any frame it returns starts at that position of the
    file. *)
Theorem seek_then_read (s : state) (off i : Z) (f : nat) (o : pyfile) (n : nat) :
  py_index (active_files s) i = Some f ->
  i < Z.of_nat (length (active_files s)) ->
  heap s !! f = Some o -> f_closed o = false ->
  0 <= off -> off < 2 ^ 63 -> off / 2 * 2 <= seek_limit s ->
  let e := off / 2 * 2 in
  exists s1,
    seek off (Some i) s = Ok tt s1 /\
    force_seek (state_of (_read_frame n s1)) = false /\
    (exists tl, io_log (state_of (_read_frame n s1)) =
                io_log s ++ IoSeek f e :: IoRead f n :: tl) /\
    (forall fr s2, _read_frame n s1 = Ok fr s2 ->
       fr = Some (take n (drop (Z.to_nat e) (f_data o)))).
Proof.
  intros Hf Hi Ho Hc Hoff H63 Hlim e.
  assert (E : seek off (Some i) s =
              Ok tt (set_force_seek true (set_current_bytes_offset e
                       (set_current_file (Some f) (set_current_file_index i s))))).
  { unfold seek, getitem. run.
    destruct (Z.leb_spec (Z.of_nat (length (active_files s))) i); [lia|].
    simpl. rewrite Hf. reflexivity. }
  assert (He : 0 <= e <= off).
  { subst e. pose proof (Z.mod_pos_bound off 2). pose proof (Z.div_mod off 2).
    pose proof (Z.div_pos off 2). lia. }
  eexists. split; [exact E|].
  set (s1 := set_force_seek true (set_current_bytes_offset e
               (set_current_file (Some f) (set_current_file_index i s)))).
  assert (H01 : 0 <= current_bytes_offset s1) by (simpl; lia).
  assert (Hl1 : current_bytes_offset s1 <= seek_limit s1) by exact Hlim.
  assert (H631 : current_bytes_offset s1 < 2 ^ 63) by (simpl; lia).
  destruct (read_frame_seeking s1 f o n Hf Hi eq_refl H01 Hl1 H631 Ho Hc)
    as (s3 & Hf3 & Hl3 & Hr).
  simpl in Hl3. change (current_bytes_offset s1) with e in Hr.
  destruct Hr as [Hr|Hr]; rewrite Hr.
  - destruct (stable_after_read f n (take n (drop (Z.to_nat e) (f_data o))) s3)
      as [Hk [tl Htl]].
    repeat apply conj.
    + congruence.
    + exists tl. rewrite Htl, Hl3, <- app_assoc. reflexivity.
    + intros fr s2 Eq. now apply after_read_returns in Eq.
  - simpl. repeat apply conj.
    + exact Hf3.
    + exists []. rewrite Hl3. reflexivity.
    + intros fr s2 Eq. discriminate Eq.
Qed.

Lemma seek_then_read_witness :
  let e := 5 / 2 * 2 in
  exists s1,
    seek 5 (Some 2) seeked_second = Ok tt s1 /\
    force_seek (state_of (_read_frame 3 s1)) = false /\
    (exists tl, io_log (state_of (_read_frame 3 s1)) =
                io_log seeked_second ++ IoSeek 2 e :: IoRead 2 3 :: tl) /\
    (forall fr s2, _read_frame 3 s1 = Ok fr s2 ->
       fr = Some (take 3 (drop (Z.to_nat e) (f_data (opened "c.raw"))))).
Proof.
  apply (seek_then_read seeked_second 5 2 2%nat (opened "c.raw") 3%nat);
    first [reflexivity | discriminate | vm_compute; reflexivity].
Defined.

(** ** Stepping without a queue *)

Lemma py_index_nil {A} (i : Z) : py_index (@nil A) i = None.
Proof.
  unfold py_index. destruct (0 <=? i); [reflexivity|].
  destruct (- Z.of_nat (length (@nil A)) <=? i); reflexivity.
Qed.

(** X18. With both queues empty, [previous_file] does not report: it raises
    [IndexError] when it indexes the hold queue, whatever the cursor is,
    and changes nothing; [next_file] returns [None] and changes nothing. *)
Theorem step_without_queues (s : state) :
  input_files s = [] -> hold_files s = [] ->
  previous_file s = Raise IndexError s /\ next_file s = Ok None s.
Proof.
  intros Hi Hh. split.
  - unfold previous_file, getitem. run. rewrite Hi, Hh, py_index_nil. reflexivity.
  - unfold next_file. run. rewrite Hi, Hh. reflexivity.
Qed.

Lemma step_without_queues_witness :
  previous_file negative_cursor = Raise IndexError negative_cursor /\
  next_file negative_cursor = Ok None negative_cursor.
Proof. apply (step_without_queues negative_cursor); reflexivity. Defined.

(** * The hold queue as a cycle of reads *)

Lemma kept_files_refl h : kept_files h h.
Proof.
  split; [reflexivity|]. intros fid o' H. exists o'. repeat split; auto.
Qed.

Lemma kept_files_trans h1 h2 h3 :
  kept_files h1 h2 -> kept_files h2 h3 -> kept_files h1 h3.
Proof.
  intros [L1 R1] [L2 R2]. split; [congruence|].
  intros fid o3 H3. destruct (R2 _ _ H3) as (o2 & H2 & A2 & B2 & C2 & D2 & E2).
  destruct (R1 _ _ H2) as (o1 & H1 & A1 & B1 & C1 & D1 & E1).
  exists o1. repeat split; try congruence.
  destruct E2 as [E2|E2]; [|now right].
  destruct E1 as [E1|E1]; [left | right]; congruence.
Qed.

Lemma kept_files_pos0 h h' f o :
  kept_files h h' -> h !! f = Some o -> f_pos o = 0%nat ->
  exists o', h' !! f = Some o' /\ f_pos o' = 0%nat.
Proof.
  intros [L R] H P.
  destruct (lookup_lt_is_Some_2 h' f) as [o' H'].
  { rewrite L. eapply lookup_lt_Some; eauto. }
  exists o'. split; [exact H'|].
  destruct (R _ _ H') as (o0 & H0 & _ & _ & _ & _ & E).
  rewrite H in H0. inversion H0; subst o0. destruct E; congruence.
Qed.

Lemma reads_on_hold (n : nat) (j : nat) : forall s,
  input_files s = [] -> hold_ready n s -> force_seek s = false ->
  0 <= current_file_index s < Z.of_nat (length (hold_files s)) ->
  exists s' frames,
    read_frames (replicate j n) s = Ok frames s' /\
    length frames = j /\
    hold_files s' = hold_files s /\ input_files s' = [] /\
    current_file_index s' =
      (current_file_index s + Z.of_nat j) mod Z.of_nat (length (hold_files s)) /\
    kept_files (heap s) (heap s') /\
    (exists tl, io_log s' = io_log s ++ tl /\ Forall (fun op => ~ is_close op) tl) /\
    (forall k f, (k < j)%nat ->
       hold_files s !! Z.to_nat ((current_file_index s + Z.of_nat k)
                                 mod Z.of_nat (length (hold_files s))) = Some f ->
       exists o', heap s' !! f = Some o' /\ f_pos o' = 0%nat).
Proof.
  induction j as [|j IH]; intros s Hin Hrdy Hs Hr.
  - exists s, []. split; [reflexivity|]. split; [reflexivity|].
    split; [reflexivity|]. split; [exact Hin|]. split; [|split; [|split]].
    + change (Z.of_nat 0) with 0. rewrite Z.add_0_r, Z.mod_small by lia.
      reflexivity.
    + apply kept_files_refl.
    + exists []. split; [now rewrite app_nil_r | constructor].
    + intros k f Hk. lia.
  - set (K := Z.of_nat (length (hold_files s))) in *.
    destruct (lookup_lt_is_Some_2 (hold_files s) (Z.to_nat (current_file_index s)))
      as [f Hf]; [subst K; lia|].
    destruct (Hrdy f) as (o & sz & Ho & Hc & Hrd & Hsz & Hnz & Hlen & Hov);
      [eapply list_elem_of_lookup_2; eauto|].
    assert (Emax : (f_pos o + (length (f_data o) - f_pos o))%nat =
                   Nat.max (f_pos o) (length (f_data o))) by lia.
    destruct (read_short_hold_step s f o sz n Hin Hr Hf Hs Ho Hc Hrd Hsz Hnz)
      as (s1 & cur & Hread & Hcur & Hh1 & Hin1 & Hidx1 & _ & _ & Ho1 & Hlog1
          & Hs1 & Hd1 & HL1 & Hoth1); [lia | rewrite Emax; exact Hov |].
    fold K in Hcur, Hidx1.
    assert (Hk1 : kept_files (heap s) (heap s1)).
    { split; [exact HL1|]. intros g o' Hg.
      destruct (decide (g = f)) as [->|Hne].
      - rewrite Ho1 in Hg. inversion Hg; subst o'.
        exists o. repeat split; auto.
      - rewrite (Hoth1 g Hne) in Hg. exists o'. repeat split; auto. }
    assert (Hrdy1 : hold_ready n s1).
    { intros g Hg. rewrite Hh1 in Hg.
      destruct (decide (g = f)) as [->|Hne].
      - exists (rewound (with_size o sz)), sz.
        split; [exact Ho1|]. split; [exact Hc|]. split; [exact Hrd|].
        split; [reflexivity|]. split; [exact Hnz|]. split; [exact Hlen|].
        eapply percentage_fits_le; [|exact Hov]. simpl. lia.
      - destruct (Hrdy g Hg) as (og & szg & A & B & C & D & E & F & G).
        exists og, szg. rewrite (Hoth1 g Hne).
        repeat split; try assumption.
        unfold resolved_size in *. rewrite Hd1. exact D. }
    assert (Hr1 : 0 <= current_file_index s1 < Z.of_nat (length (hold_files s1))).
    { rewrite Hh1, Hidx1. apply Z.mod_pos_bound. lia. }
    destruct (IH s1 Hin1 Hrdy1 Hs1 Hr1)
      as (s' & frs & Hrs & Hfl & Hh & Hi & Hidx & Hk & (tl & Hlog & Htl) & Hvis).
    rewrite Hh1 in Hh, Hidx, Hvis. rewrite Hidx1 in Hidx, Hvis. fold K in Hidx, Hvis.
    exists s', (Some (drop (f_pos o) (f_data o)) :: frs).
    split; [|split; [|split; [|split; [|split; [|split; [|split]]]]]].
    + change (replicate (S j) n) with (n :: replicate j n). simpl.
      rewrite (bind_ok _ _ s _ s1 Hread). rewrite (bind_ok _ _ s1 _ s' Hrs).
      reflexivity.
    + simpl. now rewrite Hfl.
    + exact Hh.
    + exact Hi.
    + rewrite Hidx, Z.add_mod_idemp_l by lia. f_equal. lia.
    + eapply kept_files_trans; eauto.
    + exists ([IoRead f n; IoSeek f 0] ++ tl). split.
      * rewrite Hlog, Hlog1, <- app_assoc. reflexivity.
      * apply Forall_app. split; [|exact Htl].
        repeat constructor; intros [g Hg]; discriminate Hg.
    + intros k g Hk' Hg. destruct k as [|k].
      * change (Z.of_nat 0) with 0 in Hg.
        rewrite Z.add_0_r, Z.mod_small in Hg by lia.
        rewrite Hf in Hg. inversion Hg; subst g.
        apply (kept_files_pos0 (heap s1) (heap s') f (rewound (with_size o sz)) Hk);
          [exact Ho1 | reflexivity].
      * apply (Hvis k g); [lia|].
        rewrite Z.add_mod_idemp_l by lia.
        replace (current_file_index s + 1 + Z.of_nat k)
          with (current_file_index s + Z.of_nat (S k)) by lia.
        exact Hg.
Qed.

(** C5 (as amended). With the playback queue empty, no seek pending, the
    cursor inside a hold queue of [K] open, readable files of known,
    non-zero size, [K] reads that each ask for more than any of them holds
    all return and bring the cursor back to where it was; the queues are
    unchanged, every file on hold ends at position 0 and still open, no
    file object is added, dropped, closed or rewritten, and no file
    operation of these reads is a close. *)
Theorem hold_queue_cycle_reads (s : state) (n : nat) :
  input_files s = [] -> hold_ready n s -> force_seek s = false ->
  0 <= current_file_index s < Z.of_nat (length (hold_files s)) ->
  exists s' frames,
    read_frames (replicate (length (hold_files s)) n) s = Ok frames s' /\
    length frames = length (hold_files s) /\
    current_file_index s' = current_file_index s /\
    hold_files s' = hold_files s /\ input_files s' = [] /\
    kept_files (heap s) (heap s') /\
    (forall f, f ∈ hold_files s ->
       exists o', heap s' !! f = Some o' /\ f_pos o' = 0%nat /\ f_closed o' = false) /\
    (exists tl, io_log s' = io_log s ++ tl /\ Forall (fun op => ~ is_close op) tl).
Proof.
  intros Hin Hrdy Hs Hr.
  destruct (reads_on_hold n (length (hold_files s)) s Hin Hrdy Hs Hr)
    as (s' & frs & Hrs & Hfl & Hh & Hi & Hidx & Hk & Hlog & Hvis).
  set (K := Z.of_nat (length (hold_files s))) in *.
  exists s', frs. split; [exact Hrs|]. split; [exact Hfl|].
  split; [|split; [exact Hh|split; [exact Hi|split; [exact Hk|split; [|exact Hlog]]]]].
  - rewrite Hidx. replace (current_file_index s + K)
      with (current_file_index s + 1 * K) by lia.
    rewrite Z.mod_add, Z.mod_small by lia. reflexivity.
  - intros f Hf.
    destruct (proj1 (list_elem_of_lookup _ _) Hf) as [m Hm].
    assert (Hmlt : (m < length (hold_files s))%nat) by (eapply lookup_lt_Some; eauto).
    set (k := (Z.of_nat m - current_file_index s) mod K).
    assert (Hk' : 0 <= k < K) by (apply Z.mod_pos_bound; lia).
    destruct (Hvis (Z.to_nat k) f) as (o' & Ho' & Hp); [lia| |].
    + rewrite Z2Nat.id by lia. subst k.
      rewrite Z.add_mod_idemp_r by lia.
      replace (current_file_index s + (Z.of_nat m - current_file_index s))
        with (Z.of_nat m) by lia.
      rewrite Z.mod_small by lia. rewrite Nat2Z.id. exact Hm.
    + exists o'. split; [exact Ho'|]. split; [exact Hp|].
      destruct (Hrdy f Hf) as (o & sz & Ho & Hc & _).
      destruct (proj2 Hk f o' Ho') as (o0 & Ho0 & _ & _ & _ & Hcl & _).
      congruence.
Qed.

Lemma hold_queue_cycle_reads_witness :
  exists s' frames,
    read_frames (replicate (length (hold_files hold_three_fresh)) 100%nat)
      hold_three_fresh = Ok frames s' /\
    length frames = length (hold_files hold_three_fresh) /\
    current_file_index s' = current_file_index hold_three_fresh /\
    hold_files s' = hold_files hold_three_fresh /\ input_files s' = [] /\
    kept_files (heap hold_three_fresh) (heap s') /\
    (forall f, f ∈ hold_files hold_three_fresh ->
       exists o', heap s' !! f = Some o' /\ f_pos o' = 0%nat /\ f_closed o' = false) /\
    (exists tl, io_log s' = io_log hold_three_fresh ++ tl /\
                Forall (fun op => ~ is_close op) tl).
Proof.
  apply (hold_queue_cycle_reads hold_three_fresh 100%nat).
  - reflexivity.
  - intros f Hf.
    change (hold_files hold_three_fresh) with [0%nat; 1%nat; 2%nat] in Hf.
    repeat (apply elem_of_cons in Hf; destruct Hf as [->|Hf]);
      [ eexists _, 10; repeat split;
          first [reflexivity | discriminate | vm_compute; lia] ..
      | inversion Hf].
  - reflexivity.
  - split; [intros H; vm_compute in H; discriminate H | vm_compute; reflexivity].
Defined.

(** C5 fails as stated, in two ways.  With one file on hold and one queued
    for playback (the set-up of the example script), reading past the end
    of the file on hold closes and removes the playback file; the file on
    hold is left at its end, not rewound.  With nothing queued for playback
    and an empty file second on hold, the second of two reads past the end
    raises [ZeroDivisionError] on the empty file, and the cursor stays on
    it instead of returning to where it started. *)
Lemma hold_cycle_broken :
  (hold_files both_queues = [1%nat] /\ input_files both_queues = [0%nat] /\
   let s' := state_of (_read_frame 100 both_queues) in
   io_log s' = [IoRead 1 100; IoClose 0] /\
   input_files s' = [] /\
   f_closed <$> heap s' !! 0%nat = Some true /\
   f_pos <$> heap s' !! 1%nat = Some 10%nat) /\
  (hold_files hold_with_empty = [0%nat; 1%nat] /\
   input_files hold_with_empty = [] /\
   current_file_index hold_with_empty = 0 /\
   let r := read_frames [100; 100]%nat hold_with_empty in
   r = Raise ZeroDivisionError (state_of r) /\
   current_file_index (state_of r) = 1).
Proof. repeat apply conj; vm_compute; reflexivity. Qed.
